(** * planets.py: a sun, its planets and the integration loop

    A shallow embedding of [planets.py] and the verification of its
    specification.

    - Python floats are IEEE 754 binary64 numbers; they are modelled by the
      Standard Library's [spec_float] at precision 53 and maximal exponent
      1024, whose operations are executable Rocq functions.  Integer
      arguments of the driver ([5000], [0], [25]) are represented by the
      floats they convert to the first time they meet a float.
    - Python objects are mutable and shared by reference.  Suns and planets
      live in a store indexed by references; a solar system holds references,
      so the same planet may be listed twice.
    - Methods are computations in a state and exception monad [Py]: an
      exception leaves the store as it was when it was raised.
    - A solar system and a simulation are built before the run and not
      changed by it: they are records of references and numbers.
    - The C library's [pow], which [**] reaches for ordinary operands, belongs
      to the platform: the development is parametric in it (class [Libm]).

    The statements about what a call computes speak of calls that return;
    what a call does when it raises has theorems of its own. *)

From Stdlib Require Import ZArith List String Ascii Bool Lia Permutation.
From Stdlib Require Import DecimalString FunctionalExtensionality.
From Stdlib Require Import Floats.
Import ListNotations.

Set Warnings "-inexact-float".
Set Implicit Arguments.

(** ** Exceptions and results *)

Inductive exn : Type :=
| AttributeError      (* attribute access on [None] *)
| ZeroDivisionError   (* float division by zero *)
| OverflowError       (* [**] out of range *)
| ValueError.         (* math domain error *)

Inductive result (A : Type) : Type :=
| Ok (a : A)
| Raise (e : exn).

Arguments Ok {A} a.
Arguments Raise {A} e.

(** ** Python floats *)

Module PyFloat.

Definition float64 : Type := spec_float.

(** The binary64 number a decimal literal of the source denotes. *)
Definition literal (x : PrimFloat.float) : float64 := Prim2SF x.

Definition add : float64 -> float64 -> float64 := SFadd prec emax.
Definition sub : float64 -> float64 -> float64 := SFsub prec emax.
Definition mul : float64 -> float64 -> float64 := SFmul prec emax.

Definition is_zero (x : float64) : bool :=
  match x with S754_zero _ => true | _ => false end.

Definition is_nan (x : float64) : bool :=
  match x with S754_nan => true | _ => false end.

Definition is_inf (x : float64) : bool :=
  match x with S754_infinity _ => true | _ => false end.

Definition is_finite (x : float64) : bool :=
  match x with S754_zero _ | S754_finite _ _ _ => true | _ => false end.

(** [a / b]: Python raises on a zero divisor instead of returning an
    infinity or a NaN. *)
Definition truediv (a b : float64) : result float64 :=
  if is_zero b then Raise ZeroDivisionError
  else Ok (SFdiv prec emax a b).

(** [math.sqrt]: the correctly rounded square root; a NaN result from a
    number is a domain error. *)
Definition math_sqrt (x : float64) : result float64 :=
  let r := SFsqrt prec emax x in
  if is_nan r && negb (is_nan x) then Raise ValueError
  else if is_inf r && is_finite x then Raise ValueError
  else Ok r.

(** The platform's [pow]. *)
Class Libm : Type := { pow : float64 -> float64 -> float64 }.

(** The float an integer exponent converts to. *)
Definition of_pos (n : positive) : float64 :=
  binary_normalize prec emax (Zpos n) 0 false.

Definition odd (n : positive) : bool :=
  match n with xO _ => false | _ => true end.

Definition one : float64 := Eval vm_compute in literal 1.0.

(** [iv ** n] for a float [iv] and a positive integer literal [n]
    (the program writes [** 2] and [** 3]).  The interpreter settles NaN,
    infinite, zero and unit bases itself, hands the absolute value of any
    other base to the platform's [pow], restores the sign for an odd
    exponent and reports an infinite result as an overflow; a result that
    underflows to zero is returned. *)
Definition float_pow `{Libm} (iv : float64) (n : positive) : result float64 :=
  match iv with
  | S754_nan => Ok iv
  | S754_infinity _ => Ok (if odd n then iv else SFabs iv)
  | S754_zero _ => Ok (if odd n then iv else S754_zero false)
  | S754_finite s _ _ =>
      let negate_result := s && odd n in
      let iv' := SFabs iv in
      if SFeqb iv' one then Ok (if negate_result then SFopp one else one)
      else
        let ix := pow iv' (of_pos n) in
        if is_inf ix then Raise OverflowError
        else Ok (if negate_result then SFopp ix else ix)
  end.

(** *** Formatting with [:.2f]

    The exact value is rounded to two decimals, ties to even, and printed
    with its sign; the sign of a negative zero is kept. *)

Definition round_half_even (num den : Z) : Z :=
  let q := (num / den)%Z in
  let r := (num mod den)%Z in
  match (2 * r ?= den)%Z with
  | Lt => q
  | Gt => (q + 1)%Z
  | Eq => if Z.even q then q else (q + 1)%Z
  end.

(** Hundredths in the magnitude [m * 2^e]. *)
Definition hundredths (m : positive) (e : Z) : Z :=
  match e with
  | Zneg k => round_half_even (Zpos m * 100) (Z.pow_pos 2 k)
  | _ => (Zpos m * 2 ^ e * 100)%Z
  end.

Definition digits (n : Z) : string :=
  NilZero.string_of_uint (N.to_uint (Z.to_N n)).

Definition two_digits (n : Z) : string :=
  ((if n <? 10 then "0" else "") ++ digits n)%Z%string.

Definition fixed2 (sign : bool) (h : Z) : string :=
  ((if sign then "-" else "")
     ++ digits (h / 100) ++ "." ++ two_digits (h mod 100))%string.

Definition format_2f (x : float64) : string :=
  match x with
  | S754_nan => "nan"
  | S754_infinity s => if s then "-inf" else "inf"
  | S754_zero s => fixed2 s 0
  | S754_finite s m e => fixed2 s (hundredths m e)
  end%string.

(** *** A reference [pow]

    Correct rounding of the exact power for the integral exponents, the
    only ones the program passes; used to run the model on examples. *)

Definition integral (y : float64) : option positive :=
  match y with
  | S754_finite false m (Zpos k) => Some (Pos.iter xO m k)
  | S754_finite false m Z0 => Some m
  | S754_finite false m (Zneg k) =>
      if (Zpos m mod Z.pow_pos 2 k =? 0)%Z
      then Some (Z.to_pos (Zpos m / Z.pow_pos 2 k)) else None
  | _ => None
  end.

Definition pow_rn (x y : float64) : float64 :=
  match x, integral y with
  | S754_finite s m e, Some k =>
      binary_round prec emax (s && odd k) (Pos.pow m k) (e * Zpos k)
  | _, _ => S754_nan
  end.

#[export] Instance libm_rn : Libm := {| pow := pow_rn |}.

End PyFloat.

Import PyFloat.

Declare Scope py_float_scope.
Delimit Scope py_float_scope with py.
Infix "+" := add : py_float_scope.
Infix "-" := sub : py_float_scope.
Infix "*" := mul : py_float_scope.

(** ** Module constants *)

Module Universe.

(** Gravitational constant. *)
Definition G : float64 := Eval vm_compute in literal 6.67430e-11.

End Universe.

(** ** Objects and the store *)

(** A reference to an object. *)
Definition ref : Type := nat.

(** The attributes of a [Sun] object. *)
Module SunObject.

Record t : Type := {
  name : string;
  _mass : float64;
  _radius : float64;
  _temperature : float64;
  _x_pos : float64;
  _y_pos : float64
}.

End SunObject.

(** The attributes of a [Planet] object. *)
Module PlanetObject.

Record t : Type := {
  name : string;
  _mass : float64;
  _radius : float64;
  _color : string;
  _x_pos : float64;
  _y_pos : float64;
  _x_vel : float64;
  _y_vel : float64
}.

End PlanetObject.

(** The state a run can reach: the sun and planet objects, the next free
    reference, the lines written to standard output, and the state of the
    [random] module the file imports. *)
Record World : Type := {
  suns : ref -> SunObject.t;
  planets : ref -> PlanetObject.t;
  next : ref;
  stdout : list string;
  random : list Z
}.

Definition update {A : Type} (f : ref -> A) (r : ref) (a : A) : ref -> A :=
  fun r' => if Nat.eqb r' r then a else f r'.

Definition set_sun (r : ref) (s : SunObject.t) (w : World) : World :=
  {| suns := update (suns w) r s; planets := planets w; next := next w;
     stdout := stdout w; random := random w |}.

Definition set_planet (r : ref) (p : PlanetObject.t) (w : World) : World :=
  {| suns := suns w; planets := update (planets w) r p; next := next w;
     stdout := stdout w; random := random w |}.

(** ** Computations *)

Definition Py (A : Type) : Type := World -> World * result A.

Definition ret {A : Type} (a : A) : Py A := fun w => (w, Ok a).

Definition raise {A : Type} (e : exn) : Py A := fun w => (w, Raise e).

Definition bind {A B : Type} (m : Py A) (k : A -> Py B) : Py B :=
  fun w =>
    match m w with
    | (w', Ok a) => k a w'
    | (w', Raise e) => (w', Raise e)
    end.

(** A float operation that may raise. *)
Definition lift {A : Type} (r : result A) : Py A := fun w => (w, r).

Declare Scope py_scope.
Delimit Scope py_scope with Py.
Notation "x <- m ;; k" := (bind m (fun x => k))
  (at level 61, m at next level, right associativity) : py_scope.
Notation "m ;; k" := (bind m (fun _ => k))
  (at level 61, right associativity) : py_scope.
Open Scope py_scope.

(** [for x in xs: body]. *)
Fixpoint for_each {A : Type} (xs : list A) (body : A -> Py unit) : Py unit :=
  match xs with
  | [] => ret tt
  | x :: xs' => body x ;; for_each xs' body
  end.

(** [for _ in range(n): body]; a non-positive [n] gives no iteration. *)
Definition for_range (n : Z) (body : Py unit) : Py unit :=
  for_each (repeat tt (Z.to_nat n)) (fun _ => body).

(** [print(line)]. *)
Definition print (line : string) : Py unit :=
  fun w => ({| suns := suns w; planets := planets w; next := next w;
               stdout := stdout w ++ [line]; random := random w |}, Ok tt).

(** A fresh object. *)
Definition alloc : Py ref :=
  fun w => ({| suns := suns w; planets := planets w; next := S (next w);
               stdout := stdout w; random := random w |}, Ok (next w)).

(** A method call on a value that is an object or [None]. *)
Definition call {A : Type} (o : option ref) (method : ref -> Py A) : Py A :=
  match o with
  | Some self => method self
  | None => raise AttributeError
  end.

(** The store and the outcome a computation ends with. *)
Definition exec {A : Type} (m : Py A) (w : World) : World := fst (m w).
Definition outcome {A : Type} (m : Py A) (w : World) : result A := snd (m w).

(** ** class Sun *)

Module Sun.

Import SunObject.

(** Initialize a Sun object.  The default position is the centre of the
    solar system. *)
Definition __init__ (self : ref) (name : string)
    (mass radius temperature : float64) : Py unit :=
  fun w =>
    (set_sun self {| name := name; _mass := mass; _radius := radius;
                     _temperature := temperature;
                     _x_pos := S754_zero false; _y_pos := S754_zero false |} w,
     Ok tt).

(** [Sun(name, mass, radius, temperature)]. *)
Definition new (name : string) (mass radius temperature : float64) : Py ref :=
  self <- alloc ;;
  __init__ self name mass radius temperature ;;
  ret self.

Definition get_mass (self : ref) : Py float64 :=
  fun w => (w, Ok (_mass (suns w self))).

Definition get_x_pos (self : ref) : Py float64 :=
  fun w => (w, Ok (_x_pos (suns w self))).

Definition get_y_pos (self : ref) : Py float64 :=
  fun w => (w, Ok (_y_pos (suns w self))).

Definition set_position (self : ref) (x y : float64) : Py unit :=
  fun w =>
    let s := suns w self in
    (set_sun self {| name := name s; _mass := _mass s; _radius := _radius s;
                     _temperature := _temperature s;
                     _x_pos := x; _y_pos := y |} w, Ok tt).

End Sun.

(** ** class Planet *)

Module Planet.

Import PlanetObject.

(** Initialize a Planet object.  The velocity starts along the y axis; its x
    component is the integer [0], represented by the float it becomes in
    [dt * planet.get_x_vel()]. *)
Definition __init__ (self : ref) (name : string)
    (initial_velocity mass radius x_pos y_pos : float64) (color : string)
  : Py unit :=
  fun w =>
    (set_planet self
       {| name := name; _mass := mass; _radius := radius; _color := color;
          _x_pos := x_pos; _y_pos := y_pos;
          _x_vel := S754_zero false; _y_vel := initial_velocity |} w,
     Ok tt).

(** [Planet(name, initial_velocity, mass, radius, x_pos, y_pos, color)]. *)
Definition new (name : string)
    (initial_velocity mass radius x_pos y_pos : float64) (color : string)
  : Py ref :=
  self <- alloc ;;
  __init__ self name initial_velocity mass radius x_pos y_pos color ;;
  ret self.

Definition get_name (self : ref) : Py string :=
  fun w => (w, Ok (name (planets w self))).

Definition get_mass (self : ref) : Py float64 :=
  fun w => (w, Ok (_mass (planets w self))).

Definition get_x_pos (self : ref) : Py float64 :=
  fun w => (w, Ok (_x_pos (planets w self))).

Definition get_y_pos (self : ref) : Py float64 :=
  fun w => (w, Ok (_y_pos (planets w self))).

Definition get_x_vel (self : ref) : Py float64 :=
  fun w => (w, Ok (_x_vel (planets w self))).

Definition get_y_vel (self : ref) : Py float64 :=
  fun w => (w, Ok (_y_vel (planets w self))).

Definition with_x_vel (p : PlanetObject.t) (velocity : float64) : PlanetObject.t :=
  {| name := name p; _mass := _mass p; _radius := _radius p;
     _color := _color p; _x_pos := _x_pos p; _y_pos := _y_pos p;
     _x_vel := velocity; _y_vel := _y_vel p |}.

Definition with_y_vel (p : PlanetObject.t) (velocity : float64) : PlanetObject.t :=
  {| name := name p; _mass := _mass p; _radius := _radius p;
     _color := _color p; _x_pos := _x_pos p; _y_pos := _y_pos p;
     _x_vel := _x_vel p; _y_vel := velocity |}.

Definition with_pos (p : PlanetObject.t) (x y : float64) : PlanetObject.t :=
  {| name := name p; _mass := _mass p; _radius := _radius p;
     _color := _color p; _x_pos := x; _y_pos := y;
     _x_vel := _x_vel p; _y_vel := _y_vel p |}.

Definition set_x_vel (self : ref) (velocity : float64) : Py unit :=
  fun w => (set_planet self (with_x_vel (planets w self) velocity) w, Ok tt).

Definition set_y_vel (self : ref) (velocity : float64) : Py unit :=
  fun w => (set_planet self (with_y_vel (planets w self) velocity) w, Ok tt).

Definition move_to (self : ref) (x y : float64) : Py unit :=
  fun w => (set_planet self (with_pos (planets w self) x y) w, Ok tt).

(** Distance from the sun; [sun] is whatever the caller holds, an object
    or [None]. *)
Definition distance_from_sun `{Libm} (self : ref) (sun : option ref) : Py float64 :=
  x <- get_x_pos self ;;
  sx <- call sun Sun.get_x_pos ;;
  let dx := (x - sx)%py in
  y <- get_y_pos self ;;
  sy <- call sun Sun.get_y_pos ;;
  let dy := (y - sy)%py in
  dx2 <- lift (float_pow dx 2) ;;
  dy2 <- lift (float_pow dy 2) ;;
  lift (math_sqrt (dx2 + dy2)%py).

End Planet.

(** ** class SolarSystem *)

Module SolarSystem.

Record t : Type := {
  the_sun : option ref;
  planets : list ref
}.

Definition __init__ : t := {| the_sun := None; planets := [] |}.

Definition add_sun (self : t) (sun : ref) : t :=
  {| the_sun := Some sun; planets := planets self |}.

Definition add_planet (self : t) (planet : ref) : t :=
  {| the_sun := the_sun self; planets := planets self ++ [planet] |}.

(** Time interval. *)
Definition dt : float64 := Eval vm_compute in literal 0.001.

(** The body of the loop of [move_planets], for one planet of the list. *)
Definition move_planet `{Libm} (self : t) (planet : ref) : Py unit :=
  (* Move the planet *)
  x <- Planet.get_x_pos planet ;;
  vx <- Planet.get_x_vel planet ;;
  y <- Planet.get_y_pos planet ;;
  vy <- Planet.get_y_vel planet ;;
  Planet.move_to planet (x + dt * vx)%py (y + dt * vy)%py ;;
  (* Calculate new distance from sun *)
  sx <- call (the_sun self) Sun.get_x_pos ;;
  px <- Planet.get_x_pos planet ;;
  let dist_x := (sx - px)%py in
  sy <- call (the_sun self) Sun.get_y_pos ;;
  py <- Planet.get_y_pos planet ;;
  let dist_y := (sy - py)%py in
  dx2 <- lift (float_pow dist_x 2) ;;
  dy2 <- lift (float_pow dist_y 2) ;;
  new_distance <- lift (math_sqrt (dx2 + dy2)%py) ;;
  (* Calculate acceleration *)
  m <- call (the_sun self) Sun.get_mass ;;
  d3 <- lift (float_pow new_distance 3) ;;
  acc_x <- lift (truediv (Universe.G * m * dist_x)%py d3) ;;
  m' <- call (the_sun self) Sun.get_mass ;;
  d3' <- lift (float_pow new_distance 3) ;;
  acc_y <- lift (truediv (Universe.G * m' * dist_y)%py d3') ;;
  (* Update velocities *)
  vx' <- Planet.get_x_vel planet ;;
  Planet.set_x_vel planet (vx' + dt * acc_x)%py ;;
  vy' <- Planet.get_y_vel planet ;;
  Planet.set_y_vel planet (vy' + dt * acc_y)%py.

(** Move planets based on gravitational interactions. *)
Definition move_planets `{Libm} (self : t) : Py unit :=
  for_each (planets self) (move_planet self).

End SolarSystem.

(** ** class Simulation *)

Module Simulation.

Record t : Type := {
  solar_system : SolarSystem.t;
  width : Z;
  height : Z;
  iterations : Z
}.

Definition __init__ (solar_system : SolarSystem.t) (width height iterations : Z) : t :=
  {| solar_system := solar_system; width := width; height := height;
     iterations := iterations |}.

(** The line printed for one planet. *)
Definition report `{Libm} (self : t) (planet : ref) : Py unit :=
  n <- Planet.get_name planet ;;
  x <- Planet.get_x_pos planet ;;
  y <- Planet.get_y_pos planet ;;
  d <- Planet.distance_from_sun planet (SolarSystem.the_sun (solar_system self)) ;;
  print (n ++ ": x=" ++ format_2f x ++ ", y=" ++ format_2f y ++ ", "
           ++ "distance=" ++ format_2f d)%string.

(** Run the simulation. *)
Definition run `{Libm} (self : t) : Py unit :=
  for_range (iterations self)
    (SolarSystem.move_planets (solar_system self) ;;
     (* Print planet positions *)
     for_each (SolarSystem.planets (solar_system self)) (report self)).

End Simulation.

(** ** The main block *)

(** The store before any object is made. *)
Definition no_sun : SunObject.t :=
  SunObject.Build_t "" S754_nan S754_nan S754_nan S754_nan S754_nan.

Definition no_planet : PlanetObject.t :=
  PlanetObject.Build_t "" S754_nan S754_nan "" S754_nan S754_nan S754_nan S754_nan.

Definition empty_world : World :=
  {| suns := fun _ => no_sun; planets := fun _ => no_planet; next := 0;
     stdout := []; random := [] |}.

(** The objects the main block makes and the solar system that holds them. *)
Definition build : Py SolarSystem.t :=
  let solar_system := SolarSystem.__init__ in
  the_sun <- Sun.new "SOL" (literal 5000) (literal 10000000) (literal 5800) ;;
  let solar_system := SolarSystem.add_sun solar_system the_sun in
  earth <- Planet.new "EARTH" (literal 47.5) (literal 1) (literal 25)
             (literal 5.0) (literal 200.0) "green" ;;
  let solar_system := SolarSystem.add_planet solar_system earth in
  mars <- Planet.new "MARS" (literal 40.5) (literal 0.1) (literal 62)
            (literal 10.0) (literal 125.0) "red" ;;
  let solar_system := SolarSystem.add_planet solar_system mars in
  ret solar_system.

Definition main `{Libm} : Py unit :=
  solar_system <- build ;;
  let simulation := Simulation.__init__ solar_system 500 500 2000 in
  Simulation.run simulation.

(** The store and the solar system when the simulation starts: the sun is
    object 0, EARTH object 1 and MARS object 2. *)
Definition main_world : World := exec build empty_world.

Definition main_system : SolarSystem.t :=
  {| SolarSystem.the_sun := Some 0; SolarSystem.planets := [1; 2] |}.

(** ** Stores and solar systems for the examples *)

(** A fourth object on the main block's store: a planet at rest on the sun. *)
Definition icarus_world : World :=
  exec (Planet.new "ICARUS" (literal 0) (literal 1) (literal 1)
          (literal 0.0) (literal 0.0) "white") main_world.

Definition icarus_system : SolarSystem.t :=
  SolarSystem.add_planet main_system 3.

(** The sun moved to (0.0, 1e20) and a planet made at the same place with
    initial velocity 47.5. *)
Definition far_world : World :=
  exec (Sun.set_position 0 (literal 0.0) (literal 1e20) ;;
        Planet.new "FAR" (literal 47.5) (literal 1) (literal 25)
          (literal 0.0) (literal 1e20) "blue") main_world.

Definition far_system : SolarSystem.t :=
  SolarSystem.add_planet (SolarSystem.add_sun SolarSystem.__init__ 0) 3.

(** A planet made on the sun of the main block with initial velocity 47.5. *)
Definition hermes_world : World :=
  exec (Planet.new "HERMES" (literal 47.5) (literal 1) (literal 1)
          (literal 0.0) (literal 0.0) "grey") main_world.

Definition hermes_system : SolarSystem.t :=
  SolarSystem.add_planet (SolarSystem.add_sun SolarSystem.__init__ 0) 3.

(** A sun of mass 1e300 and a planet made on it with initial velocity
    1e-100. *)
Definition giant_world : World :=
  exec (Sun.new "GIANT" (literal 1e300) (literal 10000000) (literal 5800) ;;
        Planet.new "DUST" (literal 1e-100) (literal 1) (literal 1)
          (literal 0.0) (literal 0.0) "grey") empty_world.

Definition giant_system : SolarSystem.t :=
  SolarSystem.add_planet (SolarSystem.add_sun SolarSystem.__init__ 0) 1.

(** The main block's store with EARTH a thousand times heavier. *)
Definition heavy_world : World :=
  exec (Planet.__init__ 1 "EARTH" (literal 47.5) (literal 1000) (literal 25)
          (literal 5.0) (literal 200.0) "green") main_world.

(** The main block's store with another [random] state and other objects to
    come. *)
Definition reseeded_world : World :=
  {| suns := suns main_world; planets := planets main_world; next := 7;
     stdout := stdout main_world; random := [42%Z] |}.

(** A twin of EARTH, a thousand times heavier, made on the main block's
    store and added to its solar system. *)
Definition twin_world : World :=
  exec (Planet.new "TWIN" (literal 47.5) (literal 1000) (literal 25)
          (literal 5.0) (literal 200.0) "blue") main_world.

Definition twin_system : SolarSystem.t :=
  SolarSystem.add_planet main_system 3.

(** * The vocabulary of the statements

    The passage of the loop on one planet and the report of one planet,
    written as functions of the attributes of the objects, and the relations
    between stores the theorems speak of.  The functions are not part of the
    embedding: [move_planet_advance], [distance_from_sun_distance] and
    [report_line] below prove that the embedded methods compute them. *)

Section Vocabulary.

Context `{L : Libm}.

Import PlanetObject.

(** A float is non-positive when it compares below or equal to zero. *)
Definition non_positive (x : float64) : bool :=
  SFleb x (S754_zero false).

(** The planet after the position update. *)
Definition moved (p : PlanetObject.t) : PlanetObject.t :=
  Planet.with_pos p
    (_x_pos p + SolarSystem.dt * _x_vel p)%py
    (_y_pos p + SolarSystem.dt * _y_vel p)%py.

Definition rbind {A B : Type} (r : result A) (k : A -> result B) : result B :=
  match r with Ok a => k a | Raise e => Raise e end.

(** The acceleration of a planet at [(x, y)] towards the sun [s]. *)
Definition acceleration (s : SunObject.t) (x y : float64)
  : result (float64 * float64) :=
  let dist_x := (SunObject._x_pos s - x)%py in
  let dist_y := (SunObject._y_pos s - y)%py in
  rbind (float_pow dist_x 2) (fun dx2 =>
  rbind (float_pow dist_y 2) (fun dy2 =>
  rbind (math_sqrt (dx2 + dy2)%py) (fun new_distance =>
  rbind (float_pow new_distance 3) (fun d3 =>
  rbind (truediv (Universe.G * SunObject._mass s * dist_x)%py d3) (fun acc_x =>
  rbind (truediv (Universe.G * SunObject._mass s * dist_y)%py d3) (fun acc_y =>
  Ok (acc_x, acc_y))))))).

(** The planet after the velocity update. *)
Definition kicked (p : PlanetObject.t) (acc : float64 * float64) : PlanetObject.t :=
  Planet.with_y_vel
    (Planet.with_x_vel p (_x_vel p + SolarSystem.dt * fst acc)%py)
    (_y_vel p + SolarSystem.dt * snd acc)%py.

(** What one passage of the loop makes of a planet, and how it ends. *)
Definition advance (sun : option SunObject.t) (p : PlanetObject.t)
  : PlanetObject.t * result unit :=
  match sun with
  | None => (moved p, Raise AttributeError)
  | Some s =>
      match acceleration s (_x_pos (moved p)) (_y_pos (moved p)) with
      | Ok acc => (kicked (moved p) acc, Ok tt)
      | Raise e => (moved p, Raise e)
      end
  end.

Definition sun_of (self : SolarSystem.t) (w : World) : option SunObject.t :=
  option_map (suns w) (SolarSystem.the_sun self).

(** The distance of a planet from the sun, as a function of their attributes. *)
Definition distance (sun : option SunObject.t) (p : PlanetObject.t)
  : result float64 :=
  match sun with
  | None => Raise AttributeError
  | Some s =>
      rbind (float_pow (_x_pos p - SunObject._x_pos s)%py 2) (fun dx2 =>
      rbind (float_pow (_y_pos p - SunObject._y_pos s)%py 2) (fun dy2 =>
      math_sqrt (dx2 + dy2)%py))
  end.

(** The text of a report. *)
Definition line (p : PlanetObject.t) (d : float64) : string :=
  (name p ++ ": x=" ++ format_2f (_x_pos p) ++ ", y=" ++ format_2f (_y_pos p)
     ++ ", distance=" ++ format_2f d)%string.

(** The attributes of a planet that describe it rather than its motion. *)
Definition description (p : PlanetObject.t) : string * float64 * float64 * string :=
  (name p, _mass p, _radius p, _color p).

(** Position and velocity. *)
Definition kinematics (p : PlanetObject.t) : float64 * float64 * float64 * float64 :=
  (_x_pos p, _y_pos p, _x_vel p, _y_vel p).

(** Stores with the same suns whose planets agree on position and velocity;
    their masses, among others, are free to differ. *)
Definition same_motion (w1 w2 : World) : Prop :=
  suns w1 = suns w2
  /\ forall r : ref, kinematics (planets w1 r) = kinematics (planets w2 r).

(** What a run can read: the objects and what has been printed.  The state
    of the [random] module and the allocation counter are left out. *)
Definition same_inputs (w1 w2 : World) : Prop :=
  suns w1 = suns w2 /\ planets w1 = planets w2 /\ stdout w1 = stdout w2.

Definition with_stdout (out : list string) (w : World) : World :=
  {| suns := suns w; planets := planets w; next := next w;
     stdout := out; random := random w |}.

(** Stores that differ by what has been printed only. *)
Definition same_objects (w1 w2 : World) : Prop :=
  suns w1 = suns w2 /\ planets w1 = planets w2.

(** The report of a planet in a store, as the specification words it: the
    name, the position with two decimals and the Euclidean distance from the
    primary body with two decimals. *)
Definition report_format (self : SolarSystem.t) (w : World) (planet : ref)
    (text : string) : Prop :=
  exists (sun : ref) (dx2 dy2 d : float64),
    let p := planets w planet in
    let s := suns w sun in
    SolarSystem.the_sun self = Some sun
    /\ float_pow (PlanetObject._x_pos p - SunObject._x_pos s)%py 2 = Ok dx2
    /\ float_pow (PlanetObject._y_pos p - SunObject._y_pos s)%py 2 = Ok dy2
    /\ math_sqrt (dx2 + dy2)%py = Ok d
    /\ text = (PlanetObject.name p ++ ": x=" ++ format_2f (PlanetObject._x_pos p)
                 ++ ", y=" ++ format_2f (PlanetObject._y_pos p)
                 ++ ", distance=" ++ format_2f d)%string.

(** Two computations are related by [R] when, started in related stores,
    they end in related stores with the same outcome. *)
Definition related (R : World -> World -> Prop) {A : Type} (m1 m2 : Py A)
  : Prop :=
  forall w1 w2 : World,
    R w1 w2 -> R (exec m1 w1) (exec m2 w2) /\ outcome m1 w1 = outcome m2 w2.

(** A property of the store that every step keeps is kept by the whole. *)
Definition preserves {A : Type} (P : World -> Prop) (m : Py A) : Prop :=
  forall w : World, P w -> P (exec m w).

(** One call of [move_planets] of the simulation's solar system, on the
    store. *)
Definition tick (self : Simulation.t) (w : World) : World :=
  exec (SolarSystem.move_planets (Simulation.solar_system self)) w.

(** One iteration of [run]. *)
Definition one_tick (self : Simulation.t) : Py unit :=
  SolarSystem.move_planets (Simulation.solar_system self) ;;
  for_each (SolarSystem.planets (Simulation.solar_system self))
    (Simulation.report self).

End Vocabulary.

(** * Verification *)

(** ** The model at work *)

(** [:.2f] on a value of the driver, and on ties, which go to the even
    neighbour. *)
Example format_2f_example :
  format_2f (literal 200.0475) = "200.05"%string
  /\ format_2f (literal 0.125) = "0.12"%string
  /\ format_2f (literal 0.375) = "0.38"%string
  /\ format_2f (literal (-0.001)) = "-0.00"%string.
Proof. vm_compute. repeat split. Qed.

(** [**] on the operands the interpreter settles itself and on the others. *)
Example float_pow_example :
  float_pow (literal 0.0) 3 = Ok (literal 0.0)
  /\ float_pow (literal (-3.0)) 3 = Ok (literal (-27.0))
  /\ float_pow (literal 0.1) 3 = Ok (literal 0.0010000000000000002)
  /\ float_pow (literal 1e200) 2 = Raise OverflowError
  /\ float_pow (literal 1e-200) 2 = Ok (literal 0.0).
Proof. vm_compute. repeat split. Qed.

(** The main block builds the solar system [main_system]. *)
Example build_main_system : outcome build empty_world = Ok main_system.
Proof. reflexivity. Qed.

(** ** The store *)

Lemma update_same (A : Type) (f : ref -> A) (r : ref) (a : A) :
  update f r a r = a.
Proof. unfold update. now rewrite Nat.eqb_refl. Qed.

Lemma update_other (A : Type) (f : ref -> A) (r r' : ref) (a : A) :
  r' <> r -> update f r a r' = f r'.
Proof.
  intros Hne. unfold update.
  destruct (Nat.eqb_spec r' r) as [Heq | _]; [contradiction | reflexivity].
Qed.

Lemma update_twice (A : Type) (f : ref -> A) (r : ref) (a b : A) :
  update (update f r a) r b = update f r b.
Proof.
  apply functional_extensionality; intros r'. unfold update.
  now destruct (Nat.eqb r' r).
Qed.

Lemma update_swap (A : Type) (f : ref -> A) (r1 r2 : ref) (a b : A) :
  r1 <> r2 -> update (update f r1 a) r2 b = update (update f r2 b) r1 a.
Proof.
  intros Hne. apply functional_extensionality; intros r'. unfold update.
  destruct (Nat.eqb_spec r' r1), (Nat.eqb_spec r' r2); congruence.
Qed.

Lemma set_planet_twice (r : ref) (p q : PlanetObject.t) (w : World) :
  set_planet r q (set_planet r p w) = set_planet r q w.
Proof. unfold set_planet; simpl. now rewrite update_twice. Qed.

Lemma set_planet_swap (r1 r2 : ref) (p q : PlanetObject.t) (w : World) :
  r1 <> r2 ->
  set_planet r2 q (set_planet r1 p w) = set_planet r1 p (set_planet r2 q w).
Proof. intros Hne. unfold set_planet; simpl. now rewrite update_swap. Qed.

Lemma planets_set_planet_same (r : ref) (p : PlanetObject.t) (w : World) :
  planets (set_planet r p w) r = p.
Proof. apply update_same. Qed.

Lemma planets_set_planet_other (r r' : ref) (p : PlanetObject.t) (w : World) :
  r' <> r -> planets (set_planet r p w) r' = planets w r'.
Proof. apply update_other. Qed.

Lemma suns_set_planet (r : ref) (p : PlanetObject.t) (w : World) :
  suns (set_planet r p w) = suns w.
Proof. reflexivity. Qed.

(** ** One planet, as a function of its attributes *)

Section OnePlanet.

Context `{L : Libm}.

Import PlanetObject.

Lemma move_planet_advance (self : SolarSystem.t) (planet : ref) (w : World) :
  SolarSystem.move_planet self planet w =
    (set_planet planet (fst (advance (sun_of self w) (planets w planet))) w,
     snd (advance (sun_of self w) (planets w planet))).
Proof.
  unfold SolarSystem.move_planet, advance, acceleration, sun_of.
  unfold bind, lift, rbind, call, raise, Planet.get_x_pos, Planet.get_y_pos,
    Planet.get_x_vel, Planet.get_y_vel, Planet.move_to, Planet.set_x_vel,
    Planet.set_y_vel, Sun.get_x_pos, Sun.get_y_pos, Sun.get_mass.
  destruct (SolarSystem.the_sun self) as [s|]; simpl option_map; cbv iota beta.
  2: reflexivity.
  rewrite !planets_set_planet_same, !suns_set_planet.
  fold (moved (planets w planet)).
  repeat match goal with
  | |- context [match ?r with Ok _ => _ | Raise _ => _ end] =>
      match r with
      | float_pow _ _ => destruct r eqn:?
      | math_sqrt _ => destruct r eqn:?
      | truediv _ _ => destruct r eqn:?
      end; cbv iota beta; try reflexivity
  end.
  rewrite !planets_set_planet_same, !set_planet_twice. reflexivity.
Qed.

End OnePlanet.

(** ** Construction *)

(** C4, as stated, fails: a sun of mass -5000.0 and a planet of mass 0.0 are
    constructed without any error, and the objects made carry these masses. *)
Lemma construction_accepts_non_positive_mass :
  let make_sun := Sun.new "SOL" (literal (-5000)) (literal 10000000) (literal 5800) in
  let make_planet :=
    Planet.new "EARTH" (literal 47.5) (literal 0) (literal 25)
      (literal 5.0) (literal 200.0) "green" in
  outcome make_sun empty_world = Ok 0
  /\ non_positive (SunObject._mass (suns (exec make_sun empty_world) 0)) = true
  /\ outcome make_planet empty_world = Ok 0
  /\ non_positive (PlanetObject._mass (planets (exec make_planet empty_world) 0)) = true.
Proof. vm_compute. repeat split. Qed.

(** C4, amended: construction never fails and performs no validation.  For
    every mass, positive or not, [Sun(...)] and [Planet(...)] return a new
    object whose mass is the mass given (and whose other attributes are the
    arguments, the sun at the origin, the planet moving along the y axis). *)
Theorem construction_stores_any_mass :
  forall (name color : string)
         (mass radius temperature initial_velocity x_pos y_pos : float64)
         (w : World),
    let make_sun := Sun.new name mass radius temperature in
    let make_planet :=
      Planet.new name initial_velocity mass radius x_pos y_pos color in
    outcome make_sun w = Ok (next w)
    /\ suns (exec make_sun w) (next w) =
         SunObject.Build_t name mass radius temperature
           (S754_zero false) (S754_zero false)
    /\ outcome (Sun.get_mass (next w)) (exec make_sun w) = Ok mass
    /\ outcome make_planet w = Ok (next w)
    /\ planets (exec make_planet w) (next w) =
         PlanetObject.Build_t name mass radius color x_pos y_pos
           (S754_zero false) initial_velocity
    /\ outcome (Planet.get_mass (next w)) (exec make_planet w) = Ok mass.
Proof.
  intros. unfold make_sun, make_planet, outcome, exec.
  cbn. rewrite !update_same. repeat split.
Qed.

(** ** The loop of [move_planets] *)

Section Loop.

Context `{L : Libm}.

Import PlanetObject.

Lemma exec_move_planet (self : SolarSystem.t) (planet : ref) (w : World) :
  exec (SolarSystem.move_planet self planet) w =
    set_planet planet (fst (advance (sun_of self w) (planets w planet))) w.
Proof. unfold exec. now rewrite move_planet_advance. Qed.

Lemma outcome_move_planet (self : SolarSystem.t) (planet : ref) (w : World) :
  outcome (SolarSystem.move_planet self planet) w =
    snd (advance (sun_of self w) (planets w planet)).
Proof. unfold outcome. now rewrite move_planet_advance. Qed.

Lemma sun_of_set_planet (self : SolarSystem.t) (r : ref) (p : PlanetObject.t)
    (w : World) :
  sun_of self (set_planet r p w) = sun_of self w.
Proof. reflexivity. Qed.

(** A passage that raises ends the loop; one that returns hands its store
    to the rest of the list. *)
Lemma for_each_cons (A : Type) (body : A -> Py unit) (x : A) (xs : list A)
    (w : World) :
  for_each (x :: xs) body w =
    match outcome (body x) w with
    | Ok _ => for_each xs body (exec (body x) w)
    | Raise e => (exec (body x) w, Raise e)
    end.
Proof.
  unfold outcome, exec. simpl. unfold bind.
  destruct (body x w) as [w' [a|e]]; reflexivity.
Qed.

Lemma for_each_app (A : Type) (body : A -> Py unit) (xs ys : list A)
    (w : World) :
  for_each (xs ++ ys) body w =
    match outcome (for_each xs body) w with
    | Ok _ => for_each ys body (exec (for_each xs body) w)
    | Raise e => (exec (for_each xs body) w, Raise e)
    end.
Proof.
  revert w. induction xs as [|x xs IH]; intros w.
  - reflexivity.
  - unfold outcome, exec in IH |- *. simpl. unfold bind.
    destruct (body x w) as [w' [a|e]]; [apply IH | reflexivity].
Qed.

(** A loop returns exactly when every passage does. *)
Lemma for_each_ok_cons (A : Type) (body : A -> Py unit) (x : A) (xs : list A)
    (w : World) :
  outcome (for_each (x :: xs) body) w = Ok tt <->
  outcome (body x) w = Ok tt
  /\ outcome (for_each xs body) (exec (body x) w) = Ok tt.
Proof.
  unfold outcome at 1. rewrite for_each_cons.
  destruct (outcome (body x) w) as [[]|e] eqn:Hx.
  - split; [now split | now intros [_ H]].
  - simpl. split; [discriminate | intros [H _]; discriminate].
Qed.

Lemma for_each_exec_cons (A : Type) (body : A -> Py unit) (x : A) (xs : list A)
    (w : World) :
  outcome (body x) w = Ok tt ->
  exec (for_each (x :: xs) body) w = exec (for_each xs body) (exec (body x) w).
Proof. intros H. unfold exec at 1. now rewrite for_each_cons, H. Qed.

Variable self : SolarSystem.t.

Abbreviation loop ps := (for_each ps (SolarSystem.move_planet self)).

(** Everything but the planets is left alone, and so are the planets that
    are not in the list. *)
Lemma loop_frame (ps : list ref) (w : World) :
  suns (exec (loop ps) w) = suns w
  /\ next (exec (loop ps) w) = next w
  /\ stdout (exec (loop ps) w) = stdout w
  /\ random (exec (loop ps) w) = random w.
Proof.
  revert w. induction ps as [|p ps IH]; intros w.
  - repeat split.
  - unfold exec. rewrite for_each_cons.
    destruct (outcome (SolarSystem.move_planet self p) w).
    + destruct (IH (exec (SolarSystem.move_planet self p) w)) as (H1 & H2 & H3 & H4).
      unfold exec in H1, H2, H3, H4 |- *.
      rewrite H1, H2, H3, H4. fold (exec (SolarSystem.move_planet self p) w).
      rewrite exec_move_planet. repeat split.
    + simpl fst. rewrite exec_move_planet. repeat split.
Qed.

Lemma sun_of_loop (ps : list ref) (w : World) :
  sun_of self (exec (loop ps) w) = sun_of self w.
Proof. unfold sun_of. now destruct (loop_frame ps w) as (-> & _). Qed.

Lemma loop_not_in (ps : list ref) (r : ref) (w : World) :
  ~ In r ps -> planets (exec (loop ps) w) r = planets w r.
Proof.
  revert w. induction ps as [|p ps IH]; intros w Hnotin.
  - reflexivity.
  - unfold exec. rewrite for_each_cons.
    assert (Hp : r <> p) by (intros ->; apply Hnotin; now left).
    assert (Hps : ~ In r ps) by (intros Hin; apply Hnotin; now right).
    destruct (outcome (SolarSystem.move_planet self p) w).
    + fold (exec (loop ps) (exec (SolarSystem.move_planet self p) w)).
      rewrite IH by exact Hps. rewrite exec_move_planet.
      now apply planets_set_planet_other.
    + simpl fst. rewrite exec_move_planet.
      now apply planets_set_planet_other.
Qed.

Lemma loop_ok_cons (p : ref) (ps : list ref) (w : World) :
  outcome (loop (p :: ps)) w = Ok tt <->
  outcome (SolarSystem.move_planet self p) w = Ok tt
  /\ outcome (loop ps) (exec (SolarSystem.move_planet self p) w) = Ok tt.
Proof. apply for_each_ok_cons. Qed.

Lemma exec_loop_cons_ok (p : ref) (ps : list ref) (w : World) :
  outcome (SolarSystem.move_planet self p) w = Ok tt ->
  exec (loop (p :: ps)) w = exec (loop ps) (exec (SolarSystem.move_planet self p) w).
Proof. apply for_each_exec_cons. Qed.

(** A planet listed once goes through [advance] once. *)
Lemma loop_once (ps : list ref) (r : ref) (w : World) :
  outcome (loop ps) w = Ok tt ->
  count_occ Nat.eq_dec ps r = 1 ->
  planets (exec (loop ps) w) r = fst (advance (sun_of self w) (planets w r))
  /\ snd (advance (sun_of self w) (planets w r)) = Ok tt.
Proof.
  revert w. induction ps as [|p ps IH]; intros w Hok Hcount.
  - discriminate.
  - apply loop_ok_cons in Hok. destruct Hok as [Hp Hps].
    rewrite exec_loop_cons_ok by exact Hp.
    simpl in Hcount. destruct (Nat.eq_dec p r) as [-> | Hne].
    + assert (Hnotin : ~ In r ps).
      { apply (count_occ_not_In Nat.eq_dec). lia. }
      rewrite loop_not_in by exact Hnotin.
      rewrite exec_move_planet, planets_set_planet_same.
      split; [reflexivity | now rewrite <- outcome_move_planet].
    + destruct (IH _ Hps Hcount) as [H1 H2].
      rewrite exec_move_planet in H1, H2.
      rewrite sun_of_set_planet, planets_set_planet_other in H1, H2 by congruence.
      rewrite exec_move_planet. now split.
Qed.

End Loop.

(** ** One call of [move_planets] *)

Section MovePlanets.

Context `{L : Libm}.

Import PlanetObject.

Lemma dt_literal : SolarSystem.dt = literal 0.001.
Proof. reflexivity. Qed.

Lemma G_literal : Universe.G = literal 6.67430e-11.
Proof. reflexivity. Qed.

Lemma rbind_ok (A B : Type) (r : result A) (k : A -> result B) (b : B) :
  rbind r k = Ok b -> exists a, r = Ok a /\ k a = Ok b.
Proof. destruct r as [a|e]; [now exists a | discriminate]. Qed.

(** What a successful computation of the acceleration has computed. *)
Lemma acceleration_ok (s : SunObject.t) (x y : float64) (acc : float64 * float64) :
  acceleration s x y = Ok acc ->
  let dx := (SunObject._x_pos s - x)%py in
  let dy := (SunObject._y_pos s - y)%py in
  exists dx2 dy2 r r3,
    float_pow dx 2 = Ok dx2
    /\ float_pow dy 2 = Ok dy2
    /\ math_sqrt (dx2 + dy2)%py = Ok r
    /\ float_pow r 3 = Ok r3
    /\ truediv (Universe.G * SunObject._mass s * dx)%py r3 = Ok (fst acc)
    /\ truediv (Universe.G * SunObject._mass s * dy)%py r3 = Ok (snd acc).
Proof.
  intros H dx dy. unfold acceleration in H. fold dx dy in H.
  apply rbind_ok in H; destruct H as (dx2 & Hdx2 & H).
  apply rbind_ok in H; destruct H as (dy2 & Hdy2 & H).
  apply rbind_ok in H; destruct H as (r & Hr & H).
  apply rbind_ok in H; destruct H as (r3 & Hr3 & H).
  apply rbind_ok in H; destruct H as (ax & Hax & H).
  apply rbind_ok in H; destruct H as (ay & Hay & H).
  injection H as <-. now exists dx2, dy2, r, r3.
Qed.

Lemma advance_ok (sun : option SunObject.t) (p : PlanetObject.t) :
  snd (advance sun p) = Ok tt ->
  exists s acc,
    sun = Some s
    /\ acceleration s (_x_pos (moved p)) (_y_pos (moved p)) = Ok acc
    /\ fst (advance sun p) = kicked (moved p) acc.
Proof.
  unfold advance. destruct sun as [s|]; [|discriminate].
  destruct (acceleration s _ _) as [acc|e] eqn:Hacc; [|discriminate].
  intros _. now exists s, acc.
Qed.

End MovePlanets.

(** C1.  Let the primary body be set and [move_planets] return.  Then every
    planet of the collection (listed once) has moved to old position + 0.001 *
    old velocity, and its velocity has grown by 0.001 * (G*M*dx/r^3,
    G*M*dy/r^3), where (dx, dy) = sun position - new planet position and r is
    the Euclidean distance sqrt(dx^2 + dy^2) from the new position to the
    sun. *)
Theorem move_planets_single_step `{L : Libm} :
  forall (self : SolarSystem.t) (w : World) (sun planet : ref),
    SolarSystem.the_sun self = Some sun ->
    count_occ Nat.eq_dec (SolarSystem.planets self) planet = 1 ->
    outcome (SolarSystem.move_planets self) w = Ok tt ->
    let old := planets w planet in
    let new := planets (exec (SolarSystem.move_planets self) w) planet in
    let M := SunObject._mass (suns w sun) in
    let dx := (SunObject._x_pos (suns w sun) - PlanetObject._x_pos new)%py in
    let dy := (SunObject._y_pos (suns w sun) - PlanetObject._y_pos new)%py in
    PlanetObject._x_pos new =
      (PlanetObject._x_pos old + literal 0.001 * PlanetObject._x_vel old)%py
    /\ PlanetObject._y_pos new =
      (PlanetObject._y_pos old + literal 0.001 * PlanetObject._y_vel old)%py
    /\ exists dx2 dy2 r r3 acc_x acc_y,
         float_pow dx 2 = Ok dx2
         /\ float_pow dy 2 = Ok dy2
         /\ math_sqrt (dx2 + dy2)%py = Ok r
         /\ float_pow r 3 = Ok r3
         /\ truediv (literal 6.67430e-11 * M * dx)%py r3 = Ok acc_x
         /\ truediv (literal 6.67430e-11 * M * dy)%py r3 = Ok acc_y
         /\ PlanetObject._x_vel new =
              (PlanetObject._x_vel old + literal 0.001 * acc_x)%py
         /\ PlanetObject._y_vel new =
              (PlanetObject._y_vel old + literal 0.001 * acc_y)%py.
Proof.
  intros self w sun planet Hsun Hcount Hok old new M dx dy.
  destruct (loop_once self _ planet w Hok Hcount) as [Hnew Hadv].
  apply advance_ok in Hadv. destruct Hadv as (s & acc & Hs & Hacc & Hfst).
  unfold sun_of in Hs. rewrite Hsun in Hs. injection Hs as <-.
  assert (Hnew' : new = kicked (moved old) acc).
  { unfold new, SolarSystem.move_planets. now rewrite Hnew, Hfst. }
  rewrite <- !dt_literal, <- !G_literal.
  assert (Hx : PlanetObject._x_pos new = PlanetObject._x_pos (moved old))
    by now rewrite Hnew'.
  assert (Hy : PlanetObject._y_pos new = PlanetObject._y_pos (moved old))
    by now rewrite Hnew'.
  split; [now rewrite Hx | split; [now rewrite Hy |]].
  apply acceleration_ok in Hacc.
  destruct Hacc as (dx2 & dy2 & r & r3 & H1 & H2 & H3 & H4 & H5 & H6).
  exists dx2, dy2, r, r3, (fst acc), (snd acc).
  unfold dx, dy, M. rewrite Hx, Hy.
  repeat split; try assumption; now rewrite Hnew'.
Qed.

(** The single-step numeric check of the specification: EARTH at (5.0, 200.0)
    with velocity (0, 47.5) moves to (5.0, 200.0475). *)
Lemma move_planets_single_step_earth :
  let new := planets (exec (SolarSystem.move_planets main_system) main_world) 1 in
  SolarSystem.the_sun main_system = Some 0
  /\ count_occ Nat.eq_dec (SolarSystem.planets main_system) 1 = 1
  /\ outcome (SolarSystem.move_planets main_system) main_world = Ok tt
  /\ (PlanetObject._x_pos (planets main_world 1),
      PlanetObject._y_pos (planets main_world 1)) = (literal 5.0, literal 200.0)
  /\ (PlanetObject._x_vel (planets main_world 1),
      PlanetObject._y_vel (planets main_world 1)) = (literal 0, literal 47.5)
  /\ (PlanetObject._x_pos new, PlanetObject._y_pos new)
       = (literal 5.0, literal 200.0475).
Proof.
  intros new.
  assert (Hsun : SolarSystem.the_sun main_system = Some 0) by reflexivity.
  assert (Hcount : count_occ Nat.eq_dec (SolarSystem.planets main_system) 1 = 1)
    by reflexivity.
  assert (Hok : outcome (SolarSystem.move_planets main_system) main_world = Ok tt)
    by (vm_compute; reflexivity).
  split; [exact Hsun | split; [exact Hcount | split; [exact Hok |]]].
  split; [reflexivity | split; [reflexivity |]].
  destruct (@move_planets_single_step _ main_system main_world 0 1
              Hsun Hcount Hok) as (Hx & Hy & _).
  unfold new. rewrite Hx, Hy. vm_compute. reflexivity.
Defined.

(** ** What [move_planets] leaves alone *)

Section Frame.

Context `{L : Libm}.

Import PlanetObject.

Lemma description_advance (sun : option SunObject.t) (p : PlanetObject.t) :
  description (fst (advance sun p)) = description p.
Proof.
  unfold advance. destruct sun as [s|]; [|reflexivity].
  now destruct (acceleration s _ _).
Qed.

Lemma description_loop (self : SolarSystem.t) (ps : list ref) (r : ref) (w : World) :
  description (planets (exec (for_each ps (SolarSystem.move_planet self)) w) r)
  = description (planets w r).
Proof.
  revert w. induction ps as [|p ps IH]; intros w; [reflexivity|].
  assert (Hp : description (planets (exec (SolarSystem.move_planet self p) w) r)
               = description (planets w r)).
  { rewrite exec_move_planet. destruct (Nat.eq_dec r p) as [-> | Hne].
    - rewrite planets_set_planet_same. apply description_advance.
    - now rewrite planets_set_planet_other. }
  unfold exec at 1. rewrite for_each_cons.
  destruct (outcome (SolarSystem.move_planet self p) w).
  - fold (exec (for_each ps (SolarSystem.move_planet self))
            (exec (SolarSystem.move_planet self p) w)).
    now rewrite IH.
  - exact Hp.
Qed.

End Frame.

(** C9.  A call of [move_planets], whether it returns or raises, leaves the
    sun objects as they were (so the position and the mass of the primary
    body are unchanged) and leaves the name, mass, radius and color of every
    planet unchanged; nothing is printed and no object is made.  Only the
    positions and velocities of planets can differ. *)
Theorem move_planets_frame `{L : Libm} :
  forall (self : SolarSystem.t) (w : World),
    let w' := exec (SolarSystem.move_planets self) w in
    suns w' = suns w
    /\ (forall r : ref,
          PlanetObject.name (planets w' r) = PlanetObject.name (planets w r)
          /\ PlanetObject._mass (planets w' r) = PlanetObject._mass (planets w r)
          /\ PlanetObject._radius (planets w' r) = PlanetObject._radius (planets w r)
          /\ PlanetObject._color (planets w' r) = PlanetObject._color (planets w r))
    /\ stdout w' = stdout w
    /\ next w' = next w
    /\ random w' = random w.
Proof.
  intros self w w'. unfold w', SolarSystem.move_planets.
  destruct (loop_frame self (SolarSystem.planets self) w) as (Hs & Hn & Ho & Hr).
  split; [exact Hs | split; [| now repeat split]].
  intros r.
  pose proof (description_loop self (SolarSystem.planets self) r w) as Hd.
  unfold description in Hd. injection Hd as H1 H2 H3 H4. now repeat split.
Qed.

(** ** Without a primary body *)

(** C2, as stated, fails.  On the store of the main block, a solar system
    holding EARTH but no sun raises [AttributeError] only after EARTH has
    been moved from y = 200.0 to y = 200.0475; and a solar system with no
    sun and no planet returns without any error. *)
Lemma move_planets_without_sun_moves_earth :
  let lonely := SolarSystem.add_planet SolarSystem.__init__ 1 in
  outcome (SolarSystem.move_planets lonely) main_world = Raise AttributeError
  /\ PlanetObject._y_pos (planets main_world 1) = literal 200.0
  /\ PlanetObject._y_pos
       (planets (exec (SolarSystem.move_planets lonely) main_world) 1)
     = literal 200.0475
  /\ outcome (SolarSystem.move_planets SolarSystem.__init__) main_world = Ok tt.
Proof. vm_compute. repeat split. Qed.

(** C2, amended.  In a solar system whose primary body has not been set,
    [move_planets] with an empty collection returns normally and changes
    nothing; with a non-empty collection it raises [AttributeError] during
    the first passage of the loop: the first planet has already been moved
    to position + 0.001 * velocity, no velocity has changed and no other
    planet has been touched. *)
Theorem move_planets_without_sun `{L : Libm} :
  forall (self : SolarSystem.t) (w : World),
    SolarSystem.the_sun self = None ->
    match SolarSystem.planets self with
    | [] => SolarSystem.move_planets self w = (w, Ok tt)
    | first :: _ =>
        let w' := exec (SolarSystem.move_planets self) w in
        outcome (SolarSystem.move_planets self) w = Raise AttributeError
        /\ PlanetObject._x_pos (planets w' first) =
             (PlanetObject._x_pos (planets w first)
              + literal 0.001 * PlanetObject._x_vel (planets w first))%py
        /\ PlanetObject._y_pos (planets w' first) =
             (PlanetObject._y_pos (planets w first)
              + literal 0.001 * PlanetObject._y_vel (planets w first))%py
        /\ (forall r : ref,
              PlanetObject._x_vel (planets w' r) = PlanetObject._x_vel (planets w r)
              /\ PlanetObject._y_vel (planets w' r) = PlanetObject._y_vel (planets w r))
        /\ (forall r : ref, r <> first -> planets w' r = planets w r)
    end.
Proof.
  intros self w Hsun. unfold SolarSystem.move_planets.
  destruct (SolarSystem.planets self) as [|first rest]; [reflexivity|].
  cbv zeta. unfold outcome, exec. rewrite for_each_cons.
  rewrite outcome_move_planet, exec_move_planet.
  unfold sun_of. rewrite Hsun. simpl.
  rewrite <- dt_literal.
  split; [reflexivity|].
  rewrite !update_same. split; [reflexivity | split; [reflexivity|]].
  split.
  - intros r. destruct (Nat.eq_dec r first) as [-> | Hne].
    + now rewrite update_same.
    + now rewrite update_other.
  - intros r Hne. now apply update_other.
Qed.

(** The amended C2 on the main block's store, with the sun left out. *)
Lemma move_planets_without_sun_main :
  let self := SolarSystem.add_planet (SolarSystem.add_planet SolarSystem.__init__ 1) 2 in
  let w' := exec (SolarSystem.move_planets self) main_world in
  SolarSystem.the_sun self = None
  /\ outcome (SolarSystem.move_planets self) main_world = Raise AttributeError
  /\ PlanetObject._y_pos (planets w' 1) = literal 200.0475
  /\ planets w' 2 = planets main_world 2.
Proof.
  intros self w'.
  assert (Hsun : SolarSystem.the_sun self = None) by reflexivity.
  pose proof (@move_planets_without_sun _ self main_world Hsun) as H.
  cbv [self SolarSystem.planets SolarSystem.add_planet SolarSystem.__init__ app]
    in H.
  destruct H as (Hraise & _ & Hy & _ & Hother).
  split; [exact Hsun | split; [exact Hraise | split]].
  - etransitivity; [exact Hy | vm_compute; reflexivity].
  - apply Hother. discriminate.
Defined.

(** ** A planet on the primary body *)

Section ZeroDistance.

Context `{L : Libm}.

Import PlanetObject.

(** With a zero distance the cube is zero and the division raises. *)
Lemma acceleration_zero_distance (s : SunObject.t) (x y dx2 dy2 r : float64) :
  float_pow (SunObject._x_pos s - x)%py 2 = Ok dx2 ->
  float_pow (SunObject._y_pos s - y)%py 2 = Ok dy2 ->
  math_sqrt (dx2 + dy2)%py = Ok r ->
  is_zero r = true ->
  acceleration s x y = Raise ZeroDivisionError.
Proof.
  intros Hx Hy Hr Hz. unfold acceleration. rewrite Hx, Hy. simpl rbind.
  rewrite Hr. destruct r; try discriminate. reflexivity.
Qed.

(** A distance can only be zero at a position that is a number. *)
Lemma zero_distance_finite (sx x dx2 dy2 r : float64) :
  float_pow (sx - x)%py 2 = Ok dx2 ->
  math_sqrt (dx2 + dy2)%py = Ok r ->
  is_zero r = true ->
  is_finite x = true.
Proof.
  intros Hx Hr Hz.
  destruct x as [sgn | sgn | | sgn m e]; try reflexivity; exfalso.
  - destruct sx as [s1 | s1 | | s1 m1 e1], sgn; try destruct s1;
      simpl in Hx; injection Hx as <-;
      destruct dy2 as [s2 | [] | | s2 m2 e2]; simpl in Hr;
      injection Hr as <-; discriminate.
  - destruct sx; simpl in Hx; injection Hx as <-; simpl in Hr;
      injection Hr as <-; discriminate.
Qed.

Lemma add_comm (a b : float64) : (a + b)%py = (b + a)%py.
Proof.
  destruct a as [s1 | s1 | | s1 m1 e1], b as [s2 | s2 | | s2 m2 e2];
    try reflexivity; try (now destruct s1, s2).
  unfold add, SFadd. now rewrite (Z.min_comm e2 e1), (Z.add_comm (cond_Zopp s2 _)).
Qed.

Lemma sub_diag (x : float64) :
  is_finite x = true -> (x - x)%py = S754_zero false.
Proof.
  destruct x as [s | s | | s m e]; try discriminate; intros _.
  - now destruct s.
  - unfold sub, SFsub. now rewrite Z.sub_diag.
Qed.

(** A planet whose new position is the position of the sun, both numbers, is
    at distance zero from it. *)
Lemma coincidence_zero_distance (sx sy x y : float64) :
  x = sx -> y = sy -> is_finite sx = true -> is_finite sy = true ->
  float_pow (sx - x)%py 2 = Ok (S754_zero false)
  /\ float_pow (sy - y)%py 2 = Ok (S754_zero false)
  /\ math_sqrt (S754_zero false + S754_zero false)%py = Ok (S754_zero false).
Proof.
  intros -> -> Hx Hy. rewrite !sub_diag by assumption. now repeat split.
Qed.

End ZeroDistance.

Lemma add_finite (a b : float64) :
  is_finite (a + b)%py = true -> is_finite a = true /\ is_finite b = true.
Proof.
  destruct a as [s1 | s1 | | s1 m1 e1], b as [s2 | s2 | | s2 m2 e2];
    try (intros _; split; reflexivity); try discriminate;
    destruct s1, s2; discriminate.
Qed.

Lemma mul_dt_finite (v : float64) :
  is_finite (SolarSystem.dt * v)%py = true -> is_finite v = true.
Proof. destruct v; try reflexivity; discriminate. Qed.

(** C3.  Let a planet of the collection be such that the distance computed
    after its position update is zero (its new position coincides with the
    primary body's).  Then [move_planets] raises: [ZeroDivisionError] as soon
    as the planets listed before it are advanced without error.  No
    acceleration is applied: the planet keeps its velocity, and its position
    and velocity after the call are finite numbers, neither infinite nor
    NaN. *)
Theorem move_planets_zero_distance `{L : Libm} :
  forall (self : SolarSystem.t) (w : World) (sun planet : ref)
         (before after : list ref) (dx2 dy2 r : float64),
    SolarSystem.the_sun self = Some sun ->
    SolarSystem.planets self = before ++ planet :: after ->
    ~ In planet before ->
    let old := planets w planet in
    let x := (PlanetObject._x_pos old + literal 0.001 * PlanetObject._x_vel old)%py in
    let y := (PlanetObject._y_pos old + literal 0.001 * PlanetObject._y_vel old)%py in
    float_pow (SunObject._x_pos (suns w sun) - x)%py 2 = Ok dx2 ->
    float_pow (SunObject._y_pos (suns w sun) - y)%py 2 = Ok dy2 ->
    math_sqrt (dx2 + dy2)%py = Ok r ->
    is_zero r = true ->
    let new := planets (exec (SolarSystem.move_planets self) w) planet in
    (exists e, outcome (SolarSystem.move_planets self) w = Raise e)
    /\ (outcome (for_each before (SolarSystem.move_planet self)) w = Ok tt ->
        outcome (SolarSystem.move_planets self) w = Raise ZeroDivisionError
        /\ PlanetObject._x_pos new = x /\ PlanetObject._y_pos new = y)
    /\ PlanetObject._x_vel new = PlanetObject._x_vel old
    /\ PlanetObject._y_vel new = PlanetObject._y_vel old
    /\ is_finite (PlanetObject._x_pos new) = true
    /\ is_finite (PlanetObject._y_pos new) = true
    /\ is_finite (PlanetObject._x_vel new) = true
    /\ is_finite (PlanetObject._y_vel new) = true.
Proof.
  intros self w sun planet before after dx2 dy2 r Hsun Hps Hnotin old x y
    Hdx Hdy Hr Hz new.
  assert (Hfx : is_finite x = true) by exact (zero_distance_finite _ _ _ Hdx Hr Hz).
  assert (Hfy : is_finite y = true).
  { rewrite add_comm in Hr. exact (zero_distance_finite _ _ _ Hdy Hr Hz). }
  destruct (add_finite _ _ Hfx) as [Hfx0 Hfvx].
  destruct (add_finite _ _ Hfy) as [Hfy0 Hfvy].
  apply mul_dt_finite in Hfvx, Hfvy.
  assert (Hadv : advance (sun_of self w) old = (moved old, Raise ZeroDivisionError)).
  { pose proof (acceleration_zero_distance _ _ _ Hdx Hdy Hr Hz) as Hacc.
    change (acceleration (suns w sun) (PlanetObject._x_pos (moved old))
              (PlanetObject._y_pos (moved old)) = Raise ZeroDivisionError) in Hacc.
    unfold advance, sun_of. rewrite Hsun. cbn [option_map]. now rewrite Hacc. }
  unfold new, outcome, exec, SolarSystem.move_planets. rewrite Hps, for_each_app.
  destruct (outcome (for_each before (SolarSystem.move_planet self)) w)
    as [[]|e] eqn:Hbefore.
  - rewrite for_each_cons, outcome_move_planet, exec_move_planet.
    rewrite sun_of_loop, loop_not_in by exact Hnotin.
    fold old. rewrite Hadv. simpl. rewrite update_same.
    split; [now exists ZeroDivisionError|].
    split; [intros _; now repeat split|].
    now repeat split.
  - simpl. rewrite loop_not_in by exact Hnotin. fold old.
    split; [now exists e|].
    split; [intros H; unfold outcome in Hbefore; congruence|].
    now repeat split.
Qed.

(** C3 on that store: EARTH and MARS are advanced, then ICARUS, whose new
    position is the sun's, stops the call with [ZeroDivisionError]. *)
Lemma move_planets_zero_distance_icarus :
  SolarSystem.the_sun icarus_system = Some 0
  /\ SolarSystem.planets icarus_system = [1; 2] ++ 3 :: []
  /\ (PlanetObject._x_pos (planets icarus_world 3),
      PlanetObject._y_pos (planets icarus_world 3))
     = (SunObject._x_pos (suns icarus_world 0), SunObject._y_pos (suns icarus_world 0))
  /\ outcome (SolarSystem.move_planets icarus_system) icarus_world
     = Raise ZeroDivisionError
  /\ PlanetObject._y_vel
       (planets (exec (SolarSystem.move_planets icarus_system) icarus_world) 3)
     = literal 0.
Proof.
  assert (Hsun : SolarSystem.the_sun icarus_system = Some 0) by reflexivity.
  assert (Hps : SolarSystem.planets icarus_system = [1; 2] ++ 3 :: [])
    by reflexivity.
  assert (Hnotin : ~ In 3 [1; 2]) by (simpl; intuition discriminate).
  assert (Hzero : is_zero (S754_zero false) = true) by reflexivity.
  destruct (@move_planets_zero_distance _ icarus_system icarus_world 0 3
              [1; 2] [] (S754_zero false) (S754_zero false) (S754_zero false)
              Hsun Hps Hnotin eq_refl eq_refl eq_refl Hzero)
    as (_ & Hraise & _ & Hvy & _).
  split; [exact Hsun | split; [exact Hps | split; [reflexivity | split]]].
  - apply Hraise. vm_compute. reflexivity.
  - etransitivity; [exact Hvy | reflexivity].
Defined.

(** ** A planet starting from the primary body *)

(** C10, as stated, fails.  The planet is exactly on the primary body and its
    velocity (0, 47.5) is not zero, but 1e20 + 0.001 * 47.5 rounds to 1e20:
    the position update leaves the planet on the sun, the distance is zero
    and the call raises [ZeroDivisionError]. *)
Lemma move_planets_from_sun_position_fails :
  (PlanetObject._x_pos (planets far_world 3), PlanetObject._y_pos (planets far_world 3))
    = (SunObject._x_pos (suns far_world 0), SunObject._y_pos (suns far_world 0))
  /\ PlanetObject._y_vel (planets far_world 3) = literal 47.5
  /\ is_zero (PlanetObject._y_vel (planets far_world 3)) = false
  /\ outcome (SolarSystem.move_planets far_system) far_world
     = Raise ZeroDivisionError.
Proof. vm_compute. repeat split. Qed.

(** The platform's [pow] is not even called: every base is zero.  The call
    fails in the same way whatever the platform. *)
Lemma move_planets_from_sun_position_fails_everywhere `{L : Libm} :
  outcome (SolarSystem.move_planets far_system) far_world
  = Raise ZeroDivisionError.
Proof. vm_compute. reflexivity. Qed.

(** A call that returns need not leave finite numbers.  With the reference
    [pow], the planet made on a sun of mass 1e300 with velocity 1e-100 moves
    off the sun, the call returns, and the new velocity is minus infinity:
    the division overflows, which Python does not report. *)
Lemma move_planets_from_sun_position_infinite_velocity :
  (PlanetObject._x_pos (planets giant_world 1), PlanetObject._y_pos (planets giant_world 1))
    = (SunObject._x_pos (suns giant_world 0), SunObject._y_pos (suns giant_world 0))
  /\ PlanetObject._y_vel (planets giant_world 1) = literal 1e-100
  /\ outcome (SolarSystem.move_planets giant_system) giant_world = Ok tt
  /\ PlanetObject._y_vel
       (planets (exec (SolarSystem.move_planets giant_system) giant_world) 1)
     = S754_infinity true.
Proof. vm_compute. repeat split. Qed.

Section FromSunPosition.

Context `{L : Libm}.

Lemma truediv_ok (a b : float64) :
  (exists q, truediv a b = Ok q) <-> is_zero b = false.
Proof.
  unfold truediv. destruct (is_zero b); split.
  - intros [q H]; discriminate.
  - discriminate.
  - reflexivity.
  - intros _. now eexists.
Qed.

(** The acceleration is computed exactly when the powers and the root are,
    and the cube of the distance is not zero. *)
Lemma acceleration_defined (s : SunObject.t) (x y : float64) :
  (exists acc, acceleration s x y = Ok acc) <->
  exists dx2 dy2 r r3,
    float_pow (SunObject._x_pos s - x)%py 2 = Ok dx2
    /\ float_pow (SunObject._y_pos s - y)%py 2 = Ok dy2
    /\ math_sqrt (dx2 + dy2)%py = Ok r
    /\ float_pow r 3 = Ok r3
    /\ is_zero r3 = false.
Proof.
  split.
  - intros [acc Hacc]. apply acceleration_ok in Hacc.
    destruct Hacc as (dx2 & dy2 & r & r3 & H1 & H2 & H3 & H4 & H5 & _).
    exists dx2, dy2, r, r3. repeat split; try assumption.
    apply (truediv_ok (Universe.G * SunObject._mass s * (SunObject._x_pos s - x))%py).
    exists (fst acc). exact H5.
  - intros (dx2 & dy2 & r & r3 & H1 & H2 & H3 & H4 & H5).
    unfold acceleration. rewrite H1, H2. simpl rbind. rewrite H3. simpl rbind.
    rewrite H4. simpl rbind. unfold truediv. rewrite H5. simpl. now eexists.
Qed.

(** With the primary body set, a passage returns exactly when the
    acceleration is computed. *)
Lemma advance_returns (s : SunObject.t) (p : PlanetObject.t) :
  snd (advance (Some s) p) = Ok tt <->
  exists acc,
    acceleration s (PlanetObject._x_pos (moved p)) (PlanetObject._y_pos (moved p))
    = Ok acc.
Proof.
  unfold advance. destruct (acceleration s _ _) as [acc|e]; split.
  - intros _. now exists acc.
  - reflexivity.
  - discriminate.
  - intros [acc H]. discriminate.
Qed.

(** On a collection without repetition the loop returns exactly when the
    passage on every planet, taken alone, does. *)
Lemma loop_returns (self : SolarSystem.t) (ps : list ref) (w : World) :
  NoDup ps ->
  outcome (for_each ps (SolarSystem.move_planet self)) w = Ok tt <->
  forall planet : ref,
    In planet ps -> snd (advance (sun_of self w) (planets w planet)) = Ok tt.
Proof.
  intros Hnodup. revert w.
  induction Hnodup as [|p ps Hnotin Hnodup IH]; intros w.
  - split; [intros _ planet [] | reflexivity].
  - rewrite loop_ok_cons, outcome_move_planet, IH, exec_move_planet.
    split.
    + intros [Hp Hps] planet [<- | Hin]; [exact Hp|].
      specialize (Hps planet Hin).
      rewrite sun_of_set_planet, planets_set_planet_other in Hps; [exact Hps|].
      intros ->. contradiction.
    + intros Hall. split; [apply Hall; now left|].
      intros planet Hin.
      rewrite sun_of_set_planet, planets_set_planet_other.
      * apply Hall. now right.
      * intros ->. contradiction.
Qed.

End FromSunPosition.

(** X15.  When the call returns.  With the primary body set and no planet
    listed twice, [move_planets] returns if and only if, for every planet of the
    collection, the squares of the displacement from its new position to
    the sun are computed without overflow and the distance has a cube that
    is computed without overflow and is not zero. *)
Lemma move_planets_returns `{L : Libm} :
  forall (self : SolarSystem.t) (w : World) (sun : ref),
    SolarSystem.the_sun self = Some sun ->
    NoDup (SolarSystem.planets self) ->
    outcome (SolarSystem.move_planets self) w = Ok tt <->
    forall planet : ref,
      In planet (SolarSystem.planets self) ->
      let p := planets w planet in
      let x := (PlanetObject._x_pos p + literal 0.001 * PlanetObject._x_vel p)%py in
      let y := (PlanetObject._y_pos p + literal 0.001 * PlanetObject._y_vel p)%py in
      exists dx2 dy2 r r3,
        float_pow (SunObject._x_pos (suns w sun) - x)%py 2 = Ok dx2
        /\ float_pow (SunObject._y_pos (suns w sun) - y)%py 2 = Ok dy2
        /\ math_sqrt (dx2 + dy2)%py = Ok r
        /\ float_pow r 3 = Ok r3
        /\ is_zero r3 = false.
Proof.
  intros self w sun Hsun Hnodup. unfold SolarSystem.move_planets.
  rewrite (loop_returns self w Hnodup).
  unfold sun_of. rewrite Hsun. cbn [option_map].
  split; intros H planet Hin; specialize (H planet Hin).
  - apply advance_returns in H. now apply acceleration_defined in H.
  - apply advance_returns. now apply acceleration_defined.
Qed.

(** C10, amended.  For a planet located exactly at the primary body's
    position and alone in the collection, [move_planets] returns if and only
    if the displacement survives the rounding of binary64: with (dx, dy) the
    sun's position minus the updated position, both squares are computed
    without overflow, and the distance r = sqrt(dx^2 + dy^2) has a cube that
    is computed without overflow and is not zero. *)
Theorem move_planets_from_sun_position `{L : Libm} :
  forall (self : SolarSystem.t) (w : World) (sun planet : ref),
    SolarSystem.the_sun self = Some sun ->
    SolarSystem.planets self = [planet] ->
    PlanetObject._x_pos (planets w planet) = SunObject._x_pos (suns w sun) ->
    PlanetObject._y_pos (planets w planet) = SunObject._y_pos (suns w sun) ->
    let sx := SunObject._x_pos (suns w sun) in
    let sy := SunObject._y_pos (suns w sun) in
    let dx := (sx - (sx + literal 0.001 * PlanetObject._x_vel (planets w planet)))%py in
    let dy := (sy - (sy + literal 0.001 * PlanetObject._y_vel (planets w planet)))%py in
    outcome (SolarSystem.move_planets self) w = Ok tt <->
    exists dx2 dy2 r r3,
      float_pow dx 2 = Ok dx2
      /\ float_pow dy 2 = Ok dy2
      /\ math_sqrt (dx2 + dy2)%py = Ok r
      /\ float_pow r 3 = Ok r3
      /\ is_zero r3 = false.
Proof.
  intros self w sun planet Hsun Hps Hx Hy sx sy dx dy.
  unfold SolarSystem.move_planets, outcome. rewrite Hps, for_each_cons.
  rewrite outcome_move_planet.
  assert (Hadv : snd (advance (sun_of self w) (planets w planet)) = Ok tt <->
                 exists acc, acceleration (suns w sun) (sx + SolarSystem.dt * PlanetObject._x_vel (planets w planet))%py
                               (sy + SolarSystem.dt * PlanetObject._y_vel (planets w planet))%py = Ok acc).
  { unfold advance, sun_of. rewrite Hsun. cbn [option_map].
    unfold moved. cbn [PlanetObject._x_pos PlanetObject._y_pos Planet.with_pos].
    rewrite Hx, Hy. fold sx sy.
    destruct (acceleration _ _ _) as [acc|e]; split.
    - intros _. now exists acc.
    - reflexivity.
    - discriminate.
    - intros [acc H]. discriminate. }
  assert (Hloop : match snd (advance (sun_of self w) (planets w planet)) with
                  | Ok _ => for_each [] (SolarSystem.move_planet self)
                              (exec (SolarSystem.move_planet self planet) w)
                  | Raise e => (exec (SolarSystem.move_planet self planet) w, Raise e)
                  end
                  = (exec (SolarSystem.move_planet self planet) w,
                     snd (advance (sun_of self w) (planets w planet)))).
  { now destruct (snd (advance (sun_of self w) (planets w planet))) as [[]|e]. }
  rewrite Hloop. cbn [snd].
  etransitivity; [exact Hadv|].
  exact (acceleration_defined (suns w sun) _ _).
Qed.

(** There the displacement 0.0475 survives: the call returns, so the cube of
    the distance was computed and is not zero. *)
Lemma move_planets_from_sun_position_hermes :
  SolarSystem.the_sun hermes_system = Some 0
  /\ SolarSystem.planets hermes_system = [3]
  /\ PlanetObject._x_pos (planets hermes_world 3) = SunObject._x_pos (suns hermes_world 0)
  /\ PlanetObject._y_pos (planets hermes_world 3) = SunObject._y_pos (suns hermes_world 0)
  /\ outcome (SolarSystem.move_planets hermes_system) hermes_world = Ok tt
  /\ exists dx2 dy2 r r3,
       float_pow (literal 0.0 - (literal 0.0 + literal 0.001 * literal 0))%py 2 = Ok dx2
       /\ float_pow (literal 0.0 - (literal 0.0 + literal 0.001 * literal 47.5))%py 2 = Ok dy2
       /\ math_sqrt (dx2 + dy2)%py = Ok r
       /\ float_pow r 3 = Ok r3
       /\ is_zero r3 = false.
Proof.
  assert (Hsun : SolarSystem.the_sun hermes_system = Some 0) by reflexivity.
  assert (Hps : SolarSystem.planets hermes_system = [3]) by reflexivity.
  assert (Hx : PlanetObject._x_pos (planets hermes_world 3)
               = SunObject._x_pos (suns hermes_world 0)) by reflexivity.
  assert (Hy : PlanetObject._y_pos (planets hermes_world 3)
               = SunObject._y_pos (suns hermes_world 0)) by reflexivity.
  assert (Hok : outcome (SolarSystem.move_planets hermes_system) hermes_world = Ok tt)
    by (vm_compute; reflexivity).
  repeat (split; [assumption|]).
  exact (proj1 (@move_planets_from_sun_position _ hermes_system hermes_world
                  0 3 Hsun Hps Hx Hy) Hok).
Defined.

(** ** The order of the collection *)

Section Order.

Context `{L : Libm}.

Variable self : SolarSystem.t.

(** Two passages that both return can be exchanged. *)
Lemma move_planet_swap (p q : ref) (w : World) :
  outcome (SolarSystem.move_planet self p) w = Ok tt ->
  outcome (SolarSystem.move_planet self q)
    (exec (SolarSystem.move_planet self p) w) = Ok tt ->
  outcome (SolarSystem.move_planet self q) w = Ok tt
  /\ outcome (SolarSystem.move_planet self p)
       (exec (SolarSystem.move_planet self q) w) = Ok tt
  /\ exec (SolarSystem.move_planet self p) (exec (SolarSystem.move_planet self q) w)
     = exec (SolarSystem.move_planet self q) (exec (SolarSystem.move_planet self p) w).
Proof.
  intros Hp Hq. destruct (Nat.eq_dec p q) as [-> | Hne].
  - now repeat split.
  - rewrite !outcome_move_planet, !exec_move_planet in *.
    rewrite !sun_of_set_planet in *.
    rewrite !planets_set_planet_other in * by congruence.
    repeat split; try assumption.
    apply set_planet_swap. congruence.
Qed.

Lemma loop_permutation (ps ps' : list ref) :
  Permutation ps ps' ->
  forall w : World,
    outcome (for_each ps (SolarSystem.move_planet self)) w = Ok tt ->
    for_each ps' (SolarSystem.move_planet self) w
    = for_each ps (SolarSystem.move_planet self) w.
Proof.
  induction 1 as [| x l l' Hperm IH | x y l | l l' l'' H1 IH1 H2 IH2];
    intros w Hok.
  - reflexivity.
  - apply loop_ok_cons in Hok. destruct Hok as [Hx Hl].
    rewrite !for_each_cons, Hx. now apply IH.
  - apply loop_ok_cons in Hok. destruct Hok as [Hy Hrest].
    apply loop_ok_cons in Hrest. destruct Hrest as [Hx Hl].
    destruct (move_planet_swap _ _ _ Hy Hx) as (Hx' & Hy' & Hswap).
    rewrite (for_each_cons _ x), Hx', (for_each_cons _ y), Hy'.
    rewrite (for_each_cons _ y), Hy, (for_each_cons _ x), Hx.
    now rewrite Hswap.
  - rewrite IH2, IH1; auto.
    unfold outcome. rewrite IH1; auto.
Qed.

End Order.

(** C7.  Whether [move_planets] returns does not depend on the order of the
    collection, and when it returns every planet ends, on every permutation
    of the collection, with the same position and velocity (the same
    attributes altogether): the update of a planet depends neither on the
    other planets nor on the order of the updates. *)
Theorem move_planets_permutation `{L : Libm} :
  forall (sun : option ref) (ps ps' : list ref) (w : World),
    Permutation ps ps' ->
    let self := {| SolarSystem.the_sun := sun; SolarSystem.planets := ps |} in
    let self' := {| SolarSystem.the_sun := sun; SolarSystem.planets := ps' |} in
    (outcome (SolarSystem.move_planets self) w = Ok tt <->
     outcome (SolarSystem.move_planets self') w = Ok tt)
    /\ (outcome (SolarSystem.move_planets self) w = Ok tt ->
        forall planet : ref,
          planets (exec (SolarSystem.move_planets self') w) planet
          = planets (exec (SolarSystem.move_planets self) w) planet).
Proof.
  intros sun ps ps' w Hperm self self'.
  assert (Heq : outcome (SolarSystem.move_planets self) w = Ok tt ->
                SolarSystem.move_planets self' w = SolarSystem.move_planets self w).
  { intros Hok. unfold SolarSystem.move_planets.
    change (SolarSystem.move_planet self') with (SolarSystem.move_planet self).
    now apply loop_permutation. }
  assert (Heq' : outcome (SolarSystem.move_planets self') w = Ok tt ->
                 SolarSystem.move_planets self w = SolarSystem.move_planets self' w).
  { intros Hok. unfold SolarSystem.move_planets.
    change (SolarSystem.move_planet self) with (SolarSystem.move_planet self').
    apply loop_permutation; [now apply Permutation_sym | exact Hok]. }
  split; [split|].
  - intros Hok. unfold outcome. rewrite (Heq Hok). exact Hok.
  - intros Hok. unfold outcome. rewrite (Heq' Hok). exact Hok.
  - intros Hok planet. unfold exec. now rewrite (Heq Hok).
Qed.

(** The main block's collection in the other order. *)
Lemma move_planets_permutation_main :
  let self := {| SolarSystem.the_sun := Some 0; SolarSystem.planets := [1; 2] |} in
  let self' := {| SolarSystem.the_sun := Some 0; SolarSystem.planets := [2; 1] |} in
  Permutation [1; 2] [2; 1]
  /\ outcome (SolarSystem.move_planets self) main_world = Ok tt
  /\ outcome (SolarSystem.move_planets self') main_world = Ok tt
  /\ PlanetObject._y_pos
       (planets (exec (SolarSystem.move_planets self') main_world) 1)
     = literal 200.0475.
Proof.
  intros self self'.
  assert (Hperm : Permutation [1; 2] [2; 1]) by apply perm_swap.
  assert (Hok : outcome (SolarSystem.move_planets self) main_world = Ok tt)
    by (vm_compute; reflexivity).
  destruct (@move_planets_permutation _ (Some 0) [1; 2] [2; 1] main_world Hperm)
    as [Hiff Hsame].
  split; [exact Hperm | split; [exact Hok | split; [exact (proj1 Hiff Hok)|]]].
  unfold self'. rewrite (Hsame Hok). vm_compute. reflexivity.
Defined.

(** ** Reports *)

Section Reports.

Context `{L : Libm}.

Import PlanetObject.

Lemma distance_from_sun_distance (planet : ref) (sun : option ref) (w : World) :
  Planet.distance_from_sun planet sun w =
    (w, distance (option_map (suns w) sun) (planets w planet)).
Proof.
  unfold Planet.distance_from_sun, distance, bind, lift, call, raise, rbind,
    Planet.get_x_pos, Planet.get_y_pos, Sun.get_x_pos, Sun.get_y_pos.
  destruct sun as [s|]; [|reflexivity]. cbn [option_map].
  destruct (float_pow (_x_pos (planets w planet) - _)%py 2); [|reflexivity].
  destruct (float_pow (_y_pos (planets w planet) - _)%py 2); reflexivity.
Qed.

Lemma report_line (self : Simulation.t) (planet : ref) (w : World) :
  Simulation.report self planet w =
    match distance (sun_of (Simulation.solar_system self) w) (planets w planet) with
    | Ok d => print (line (planets w planet) d) w
    | Raise e => (w, Raise e)
    end.
Proof.
  unfold Simulation.report, bind, Planet.get_name, Planet.get_x_pos,
    Planet.get_y_pos.
  rewrite distance_from_sun_distance. fold (sun_of (Simulation.solar_system self) w).
  destruct (distance _ _) as [d|e]; reflexivity.
Qed.

End Reports.

(** ** Two runs side by side *)

Section Related.

Variable R : World -> World -> Prop.

Lemma related_ret (A : Type) (a : A) : related R (ret a) (ret a).
Proof. intros w1 w2 HR. now split. Qed.

Lemma related_bind (A B : Type) (m1 m2 : Py A) (k1 k2 : A -> Py B) :
  related R m1 m2 -> (forall a, related R (k1 a) (k2 a)) ->
  related R (bind m1 k1) (bind m2 k2).
Proof.
  intros Hm Hk w1 w2 HR. destruct (Hm w1 w2 HR) as [HR' Hout].
  unfold exec, outcome, bind in *.
  destruct (m1 w1) as [w1' [a1|e1]], (m2 w2) as [w2' [a2|e2]];
    simpl in *; try discriminate.
  - injection Hout as <-. exact (Hk a1 w1' w2' HR').
  - injection Hout as <-. now split.
Qed.

Lemma related_for_each (A : Type) (body1 body2 : A -> Py unit) (xs : list A) :
  (forall x, related R (body1 x) (body2 x)) ->
  related R (for_each xs body1) (for_each xs body2).
Proof.
  intros Hbody. induction xs as [|x xs IH].
  - apply related_ret.
  - simpl. apply related_bind; [apply Hbody | intros _; exact IH].
Qed.

End Related.

Section Kinematics.

Context `{L : Libm}.

Import PlanetObject.

Lemma advance_kinematics (sun : option SunObject.t) (p q : PlanetObject.t) :
  kinematics p = kinematics q ->
  kinematics (fst (advance sun p)) = kinematics (fst (advance sun q))
  /\ snd (advance sun p) = snd (advance sun q).
Proof.
  unfold kinematics. intros H. injection H as Hx Hy Hvx Hvy.
  unfold advance, moved, kicked, kinematics. destruct sun as [s|]; simpl.
  - rewrite Hx, Hy, Hvx, Hvy.
    destruct (acceleration s _ _) as [acc|e]; simpl; now rewrite ?Hx, ?Hy, ?Hvx, ?Hvy.
  - now rewrite Hx, Hy, Hvx, Hvy.
Qed.

Lemma distance_kinematics (sun : option SunObject.t) (p q : PlanetObject.t) :
  kinematics p = kinematics q -> distance sun p = distance sun q.
Proof.
  unfold kinematics. intros H. injection H as Hx Hy _ _.
  unfold distance. now rewrite Hx, Hy.
Qed.

Lemma same_motion_move_planet (self : SolarSystem.t) (planet : ref) :
  related same_motion (SolarSystem.move_planet self planet)
    (SolarSystem.move_planet self planet).
Proof.
  intros w1 w2 [Hsuns Hkin].
  rewrite !outcome_move_planet, !exec_move_planet.
  assert (Hsun : sun_of self w1 = sun_of self w2)
    by (unfold sun_of; now rewrite Hsuns).
  rewrite Hsun.
  destruct (advance_kinematics (sun_of self w2) (Hkin planet)) as [Hk Ho].
  split; [split; [exact Hsuns|] | exact Ho].
  intros r. simpl. unfold update. destruct (Nat.eqb r planet); [exact Hk | apply Hkin].
Qed.

Lemma same_motion_report (self : Simulation.t) (planet : ref) :
  related same_motion (Simulation.report self planet)
    (Simulation.report self planet).
Proof.
  intros w1 w2 [Hsuns Hkin]. unfold exec, outcome. rewrite !report_line.
  assert (Hsun : sun_of (Simulation.solar_system self) w1
                 = sun_of (Simulation.solar_system self) w2)
    by (unfold sun_of; now rewrite Hsuns).
  rewrite Hsun, (distance_kinematics _ (Hkin planet)).
  destruct (distance _ _) as [d|e]; simpl; now repeat split.
Qed.

Lemma same_motion_run (self : Simulation.t) :
  related same_motion (Simulation.run self) (Simulation.run self).
Proof.
  unfold Simulation.run, for_range. apply related_for_each. intros _.
  apply related_bind.
  - apply related_for_each. intros planet. apply same_motion_move_planet.
  - intros _. apply related_for_each. intros planet. apply same_motion_report.
Qed.

End Kinematics.

(** X17.  Mass independence across two runs.  Take two stores with the same suns
    in which every planet has the same position and velocity, whatever the
    masses.  After a simulation of any number of ticks, started from one
    store or the other, every planet has again the same position and
    velocity, and the two runs end alike (both return, or both raise the same
    error). *)
Lemma mass_independence_two_runs `{L : Libm} :
  forall (self : Simulation.t) (w1 w2 : World),
    suns w1 = suns w2 ->
    (forall r : ref,
       PlanetObject._x_pos (planets w1 r) = PlanetObject._x_pos (planets w2 r)
       /\ PlanetObject._y_pos (planets w1 r) = PlanetObject._y_pos (planets w2 r)
       /\ PlanetObject._x_vel (planets w1 r) = PlanetObject._x_vel (planets w2 r)
       /\ PlanetObject._y_vel (planets w1 r) = PlanetObject._y_vel (planets w2 r)) ->
    let w1' := exec (Simulation.run self) w1 in
    let w2' := exec (Simulation.run self) w2 in
    outcome (Simulation.run self) w1 = outcome (Simulation.run self) w2
    /\ forall r : ref,
         PlanetObject._x_pos (planets w1' r) = PlanetObject._x_pos (planets w2' r)
         /\ PlanetObject._y_pos (planets w1' r) = PlanetObject._y_pos (planets w2' r)
         /\ PlanetObject._x_vel (planets w1' r) = PlanetObject._x_vel (planets w2' r)
         /\ PlanetObject._y_vel (planets w1' r) = PlanetObject._y_vel (planets w2' r).
Proof.
  intros self w1 w2 Hsuns Hkin w1' w2'.
  assert (HR : same_motion w1 w2).
  { split; [exact Hsuns|]. intros r. unfold kinematics.
    destruct (Hkin r) as (-> & -> & -> & ->). reflexivity. }
  destruct (same_motion_run self HR) as [[_ Hkin'] Hout].
  split; [exact Hout|]. intros r. specialize (Hkin' r).
  unfold kinematics in Hkin'. injection Hkin' as H1 H2 H3 H4. now repeat split.
Qed.

(** Three ticks from both stores: EARTH of mass 1 and EARTH of mass 1000 end
    at the same place with the same velocity. *)
Lemma mass_independence_two_runs_earth :
  let self := Simulation.__init__ main_system 500 500 3 in
  PlanetObject._mass (planets main_world 1) = literal 1
  /\ PlanetObject._mass (planets heavy_world 1) = literal 1000
  /\ outcome (Simulation.run self) main_world = outcome (Simulation.run self) heavy_world
  /\ PlanetObject._y_pos (planets (exec (Simulation.run self) main_world) 1)
     = PlanetObject._y_pos (planets (exec (Simulation.run self) heavy_world) 1)
  /\ PlanetObject._x_vel (planets (exec (Simulation.run self) main_world) 1)
     = PlanetObject._x_vel (planets (exec (Simulation.run self) heavy_world) 1).
Proof.
  intros self.
  assert (Hsuns : suns main_world = suns heavy_world) by reflexivity.
  assert (Hkin : forall r : ref,
    PlanetObject._x_pos (planets main_world r) = PlanetObject._x_pos (planets heavy_world r)
    /\ PlanetObject._y_pos (planets main_world r) = PlanetObject._y_pos (planets heavy_world r)
    /\ PlanetObject._x_vel (planets main_world r) = PlanetObject._x_vel (planets heavy_world r)
    /\ PlanetObject._y_vel (planets main_world r) = PlanetObject._y_vel (planets heavy_world r)).
  { intros r. destruct (Nat.eq_dec r 1) as [-> | Hne].
    - repeat split.
    - unfold heavy_world, exec, Planet.__init__. cbn [fst set_planet planets].
      rewrite update_other by exact Hne. repeat split. }
  destruct (@mass_independence_two_runs _ self main_world heavy_world Hsuns Hkin)
    as [Hout Hsame].
  destruct (Hsame 1) as (_ & Hy & Hvx & _).
  split; [reflexivity | split; [reflexivity | split; [exact Hout | split]]].
  - exact Hy.
  - exact Hvx.
Defined.

(** ** Determinism *)

Section Determinism.

Context `{L : Libm}.

Lemma same_inputs_move_planet (self : SolarSystem.t) (planet : ref) :
  related same_inputs (SolarSystem.move_planet self planet)
    (SolarSystem.move_planet self planet).
Proof.
  intros w1 w2 (Hsuns & Hplanets & Hout).
  rewrite !outcome_move_planet, !exec_move_planet.
  unfold sun_of, same_inputs, set_planet. simpl.
  rewrite Hsuns, Hplanets. now repeat split.
Qed.

Lemma same_inputs_report (self : Simulation.t) (planet : ref) :
  related same_inputs (Simulation.report self planet)
    (Simulation.report self planet).
Proof.
  intros w1 w2 (Hsuns & Hplanets & Hout). unfold exec, outcome.
  rewrite !report_line. unfold sun_of. rewrite Hsuns, Hplanets.
  destruct (distance _ _) as [d|e]; simpl; [|now repeat split].
  unfold same_inputs. simpl. rewrite Hout. now repeat split.
Qed.

Lemma same_inputs_run (self : Simulation.t) :
  related same_inputs (Simulation.run self) (Simulation.run self).
Proof.
  unfold Simulation.run, for_range. apply related_for_each. intros _.
  apply related_bind.
  - apply related_for_each. intros planet. apply same_inputs_move_planet.
  - intros _. apply related_for_each. intros planet. apply same_inputs_report.
Qed.

(** A run reads its solar system and its iteration count, nothing else of
    the simulation. *)
Lemma run_reads (self1 self2 : Simulation.t) :
  Simulation.solar_system self1 = Simulation.solar_system self2 ->
  Simulation.iterations self1 = Simulation.iterations self2 ->
  Simulation.run self1 = Simulation.run self2.
Proof.
  intros Hss Hit. unfold Simulation.run, Simulation.report.
  now rewrite Hss, Hit.
Qed.

Lemma preserves_bind (A B : Type) (P : World -> Prop) (m : Py A) (k : A -> Py B) :
  preserves P m -> (forall a, preserves P (k a)) -> preserves P (bind m k).
Proof.
  intros Hm Hk w HP. specialize (Hm w HP). unfold exec, bind in *.
  destruct (m w) as [w' [a|e]]; simpl in *; [now apply Hk | exact Hm].
Qed.

Lemma preserves_for_each (A : Type) (P : World -> Prop) (body : A -> Py unit)
    (xs : list A) :
  (forall x, preserves P (body x)) -> preserves P (for_each xs body).
Proof.
  intros Hbody. induction xs as [|x xs IH].
  - intros w HP. exact HP.
  - simpl. apply preserves_bind; [apply Hbody | intros _; exact IH].
Qed.

(** A run makes no object and never touches the [random] module. *)
Lemma run_frame (self : Simulation.t) (w : World) :
  suns (exec (Simulation.run self) w) = suns w
  /\ next (exec (Simulation.run self) w) = next w
  /\ random (exec (Simulation.run self) w) = random w.
Proof.
  set (P := fun w' : World =>
              suns w' = suns w /\ next w' = next w /\ random w' = random w).
  assert (H : preserves P (Simulation.run self)).
  { unfold Simulation.run, for_range. apply preserves_for_each. intros _.
    apply preserves_bind.
    - apply preserves_for_each. intros planet w' HP.
      rewrite exec_move_planet. exact HP.
    - intros _. apply preserves_for_each. intros planet w' HP.
      unfold exec. rewrite report_line.
      destruct (distance _ _) as [d|e]; exact HP. }
  apply H. unfold P. now repeat split.
Qed.

End Determinism.

(** C6.  Two runs of the simulation on the same solar system and iteration
    count, started from stores with the same objects and the same output so
    far, end alike and leave the same objects and the same output; this holds
    for every number of ticks, so the sequences of positions and velocities
    agree tick by tick.  The bounds of the simulation and the state of the
    [random] module play no part: they may differ between the runs, and a
    run leaves the [random] state as it found it. *)
Theorem simulation_deterministic `{L : Libm} :
  forall (self1 self2 : Simulation.t) (w1 w2 : World),
    Simulation.solar_system self1 = Simulation.solar_system self2 ->
    Simulation.iterations self1 = Simulation.iterations self2 ->
    suns w1 = suns w2 ->
    planets w1 = planets w2 ->
    stdout w1 = stdout w2 ->
    outcome (Simulation.run self1) w1 = outcome (Simulation.run self2) w2
    /\ planets (exec (Simulation.run self1) w1)
       = planets (exec (Simulation.run self2) w2)
    /\ stdout (exec (Simulation.run self1) w1)
       = stdout (exec (Simulation.run self2) w2)
    /\ (forall ticks : Z,
          let run1 := Simulation.run
                        (Simulation.__init__ (Simulation.solar_system self1)
                           (Simulation.width self1) (Simulation.height self1) ticks) in
          let run2 := Simulation.run
                        (Simulation.__init__ (Simulation.solar_system self2)
                           (Simulation.width self2) (Simulation.height self2) ticks) in
          outcome run1 w1 = outcome run2 w2
          /\ planets (exec run1 w1) = planets (exec run2 w2))
    /\ random (exec (Simulation.run self1) w1) = random w1
    /\ random (exec (Simulation.run self2) w2) = random w2.
Proof.
  intros self1 self2 w1 w2 Hss Hit Hsuns Hplanets Hout.
  assert (HR : same_inputs w1 w2) by now repeat split.
  assert (Hrun : forall a b : Simulation.t,
            Simulation.solar_system a = Simulation.solar_system b ->
            Simulation.iterations a = Simulation.iterations b ->
            outcome (Simulation.run a) w1 = outcome (Simulation.run b) w2
            /\ planets (exec (Simulation.run a) w1) = planets (exec (Simulation.run b) w2)
            /\ stdout (exec (Simulation.run a) w1) = stdout (exec (Simulation.run b) w2)).
  { intros a b Hab Hab'. rewrite (run_reads a b Hab Hab').
    destruct (same_inputs_run b HR) as [(_ & Hp & Ho) Hres]. now repeat split. }
  destruct (Hrun self1 self2 Hss Hit) as (H1 & H2 & H3).
  split; [exact H1 | split; [exact H2 | split; [exact H3 | split]]].
  - intros ticks run1 run2.
    destruct (Hrun (Simulation.__init__ (Simulation.solar_system self1)
                      (Simulation.width self1) (Simulation.height self1) ticks)
                   (Simulation.__init__ (Simulation.solar_system self2)
                      (Simulation.width self2) (Simulation.height self2) ticks)
                   Hss eq_refl) as (H4 & H5 & _).
    now split.
  - split; apply run_frame.
Qed.

(** Two runs of three ticks, with other bounds and another [random] state:
    the same lines are printed. *)
Lemma simulation_deterministic_main :
  let self1 := Simulation.__init__ main_system 500 500 3 in
  let self2 := Simulation.__init__ main_system 800 600 3 in
  random main_world <> random reseeded_world
  /\ outcome (Simulation.run self1) main_world
     = outcome (Simulation.run self2) reseeded_world
  /\ stdout (exec (Simulation.run self1) main_world)
     = stdout (exec (Simulation.run self2) reseeded_world)
  /\ random (exec (Simulation.run self2) reseeded_world) = [42%Z].
Proof.
  intros self1 self2.
  destruct (@simulation_deterministic _ self1 self2 main_world reseeded_world
              eq_refl eq_refl eq_refl eq_refl eq_refl)
    as (Hout & _ & Hstdout & _ & _ & Hrandom).
  split; [discriminate | split; [exact Hout | split; [exact Hstdout | exact Hrandom]]].
Defined.

(** ** The run, tick by tick *)

Section Ticks.

Context `{L : Libm}.

Lemma same_objects_move_planets (self : SolarSystem.t) :
  related same_objects (SolarSystem.move_planets self)
    (SolarSystem.move_planets self).
Proof.
  unfold SolarSystem.move_planets. apply related_for_each.
  intros planet w1 w2 (Hsuns & Hplanets).
  rewrite !outcome_move_planet, !exec_move_planet.
  unfold sun_of, same_objects, set_planet. simpl.
  rewrite Hsuns, Hplanets. now repeat split.
Qed.

Lemma distance_report_format (self : SolarSystem.t) (w : World) (planet : ref)
    (d : float64) :
  distance (sun_of self w) (planets w planet) = Ok d ->
  report_format self w planet (line (planets w planet) d).
Proof.
  unfold distance, sun_of, report_format.
  destruct (SolarSystem.the_sun self) as [sun|]; [|discriminate].
  cbn [option_map]. intros H.
  apply rbind_ok in H; destruct H as (dx2 & Hdx2 & H).
  apply rbind_ok in H; destruct H as (dy2 & Hdy2 & H).
  exists sun, dx2, dy2, d. now repeat split.
Qed.

Lemma report_format_same_objects (self : SolarSystem.t) (w1 w2 : World)
    (planet : ref) (text : string) :
  same_objects w1 w2 ->
  report_format self w1 planet text -> report_format self w2 planet text.
Proof. intros [Hs Hp]. unfold report_format. now rewrite Hs, Hp. Qed.

(** The reports of one tick: one line for each planet of the collection, in
    the order of the collection, appended to the output. *)
Lemma reports_lines (self : Simulation.t) (ps : list ref) (w : World) :
  outcome (for_each ps (Simulation.report self)) w = Ok tt ->
  exists lines : list string,
    exec (for_each ps (Simulation.report self)) w
    = with_stdout (stdout w ++ lines) w
    /\ Forall2 (report_format (Simulation.solar_system self) w) ps lines.
Proof.
  revert w. induction ps as [|p ps IH]; intros w Hok.
  - exists []. split; [|constructor].
    unfold exec, with_stdout. simpl. rewrite app_nil_r. now destruct w.
  - unfold outcome in Hok. unfold exec. rewrite for_each_cons in Hok |- *.
    unfold outcome, exec in Hok |- *. rewrite report_line in Hok |- *.
    destruct (distance _ _) as [d|e] eqn:Hd; [|discriminate].
    set (w1 := with_stdout (stdout w ++ [line (planets w p) d]) w).
    change (print (line (planets w p) d) w) with (w1, Ok tt) in Hok |- *.
    cbn [fst snd] in Hok |- *.
    destruct (IH w1 Hok) as (lines & Hexec & Hlines).
    exists (line (planets w p) d :: lines). split.
    + unfold exec in Hexec. rewrite Hexec. unfold with_stdout, w1. simpl.
      now rewrite <- app_assoc.
    + constructor.
      * now apply distance_report_format.
      * eapply Forall2_impl; [|exact Hlines].
        intros planet text. apply report_format_same_objects. now split.
Qed.

End Ticks.

Section Run.

Context `{L : Libm}.

Lemma World_ext (w1 w2 : World) :
  suns w1 = suns w2 -> planets w1 = planets w2 -> next w1 = next w2 ->
  stdout w1 = stdout w2 -> random w1 = random w2 -> w1 = w2.
Proof. destruct w1, w2; simpl; intros; now subst. Qed.

Lemma bind_ok (A B : Type) (m : Py A) (k : A -> Py B) (w : World) (b : B) :
  outcome (bind m k) w = Ok b ->
  exists a, outcome m w = Ok a
            /\ outcome (k a) (exec m w) = Ok b
            /\ exec (bind m k) w = exec (k a) (exec m w).
Proof.
  unfold outcome, exec, bind. destruct (m w) as [w' [a|e]]; simpl.
  - intros H. now exists a.
  - discriminate.
Qed.

Variable self : Simulation.t.

Lemma tick_with_stdout (out : list string) (w : World) :
  tick self (with_stdout out w) = with_stdout out (tick self w)
  /\ outcome (SolarSystem.move_planets (Simulation.solar_system self))
       (with_stdout out w)
     = outcome (SolarSystem.move_planets (Simulation.solar_system self)) w.
Proof.
  assert (HR : same_objects (with_stdout out w) w) by now split.
  destruct (same_objects_move_planets (Simulation.solar_system self) HR)
    as [[Hs Hp] Ho].
  split; [|exact Ho]. unfold tick, SolarSystem.move_planets in *.
  destruct (loop_frame (Simulation.solar_system self)
              (SolarSystem.planets (Simulation.solar_system self))
              (with_stdout out w)) as (_ & Hn & Hout & Hr).
  destruct (loop_frame (Simulation.solar_system self)
              (SolarSystem.planets (Simulation.solar_system self)) w)
    as (_ & Hn' & _ & Hr').
  apply World_ext; simpl; try assumption.
  - now rewrite Hn, Hn'.
  - now rewrite Hr, Hr'.
Qed.

Lemma ticks_with_stdout (out : list string) (k : nat) (w : World) :
  Nat.iter k (tick self) (with_stdout out w) = with_stdout out (Nat.iter k (tick self) w).
Proof.
  induction k as [|k IH]; [reflexivity|].
  simpl. rewrite IH. apply tick_with_stdout.
Qed.

Lemma ticks_succ (k : nat) (w : World) :
  Nat.iter (S k) (tick self) w = Nat.iter k (tick self) (tick self w).
Proof. induction k as [|k IH]; [reflexivity|]. simpl in *. now rewrite IH. Qed.

(** What [n] ticks that all return have done and printed. *)
Lemma ticks_blocks (n : nat) (w : World) :
  outcome (for_each (repeat tt n) (fun _ => one_tick self)) w = Ok tt ->
  exists blocks : list (list string),
    Datatypes.length blocks = n
    /\ exec (for_each (repeat tt n) (fun _ => one_tick self)) w
       = with_stdout (stdout w ++ List.concat blocks) (Nat.iter n (tick self) w)
    /\ forall k : nat, k < n ->
         outcome (SolarSystem.move_planets (Simulation.solar_system self))
           (Nat.iter k (tick self) w) = Ok tt
         /\ Forall2 (report_format (Simulation.solar_system self)
                       (Nat.iter (S k) (tick self) w))
              (SolarSystem.planets (Simulation.solar_system self))
              (nth k blocks []).
Proof.
  revert w. induction n as [|n IH]; intros w Hok.
  - exists []. split; [reflexivity | split; [|intros k Hk; lia]].
    unfold exec, with_stdout. simpl. rewrite app_nil_r. now destruct w.
  - simpl repeat in Hok |- *. apply for_each_ok_cons in Hok.
    destruct Hok as [Hfirst Hrest].
    rewrite for_each_exec_cons by exact Hfirst.
    apply bind_ok in Hfirst. destruct Hfirst as ([] & Hmove & Hreports & Hexec).
    fold (one_tick self) in Hexec. fold (tick self w) in Hreports, Hexec.
    destruct (reports_lines _ _ _ Hreports) as (lines & Hlines & Hformat).
    assert (Hstdout : stdout (tick self w) = stdout w).
    { unfold tick, SolarSystem.move_planets. apply loop_frame. }
    rewrite Hstdout in Hlines.
    assert (Hw2 : exec (one_tick self) w = with_stdout (stdout w ++ lines) (tick self w)).
    { rewrite Hexec, Hlines. reflexivity. }
    rewrite Hw2 in Hrest |- *.
    destruct (IH _ Hrest) as (blocks & Hlen & Hfinal & Hticks).
    exists (lines :: blocks). split; [simpl; now rewrite Hlen | split].
    + rewrite Hfinal, ticks_with_stdout, ticks_succ.
      unfold with_stdout. simpl. now rewrite <- app_assoc.
    + intros [|k] Hk.
      * split; [exact Hmove | exact Hformat].
      * destruct (Hticks k ltac:(lia)) as [Hmove_k Hformat_k].
        rewrite ticks_with_stdout in Hmove_k, Hformat_k.
        rewrite (proj2 (tick_with_stdout _ _)) in Hmove_k.
        rewrite <- !ticks_succ in Hmove_k.
        split; [exact Hmove_k|].
        simpl nth. rewrite (ticks_succ (S k)).
        eapply Forall2_impl; [|exact Hformat_k].
        intros planet text. apply report_format_same_objects. now split.
Qed.

End Run.

(** C8.  Let a run of N iterations return.  Then [move_planets] has been
    called N times, each call on the store the previous one left, and after
    the k-th call one line has been printed for each planet of the collection,
    in the order of the collection, reading [<name>: x=<x:.2f>, y=<y:.2f>,
    distance=<distance:.2f>] with the position of the planet after that call
    and its Euclidean distance from the primary body.  Nothing else is
    printed. *)
Theorem run_reports `{L : Libm} :
  forall (self : Simulation.t) (w : World),
    let system := Simulation.solar_system self in
    let N := Z.to_nat (Simulation.iterations self) in
    let after (k : nat) := Nat.iter k (exec (SolarSystem.move_planets system)) w in
    outcome (Simulation.run self) w = Ok tt ->
    exists blocks : list (list string),
      Datatypes.length blocks = N
      /\ stdout (exec (Simulation.run self) w) = stdout w ++ List.concat blocks
      /\ planets (exec (Simulation.run self) w) = planets (after N)
      /\ forall k : nat, k < N ->
           outcome (SolarSystem.move_planets system) (after k) = Ok tt
           /\ Forall2 (report_format system (after (S k)))
                (SolarSystem.planets system) (nth k blocks []).
Proof.
  intros self w system N after Hok.
  unfold Simulation.run, for_range in Hok |- *.
  destruct (ticks_blocks self (Z.to_nat (Simulation.iterations self)) w Hok)
    as (blocks & Hlen & Hexec & Hticks).
  exists blocks. split; [exact Hlen | split; [|split]].
  - unfold one_tick in Hexec. rewrite Hexec. reflexivity.
  - unfold one_tick in Hexec. rewrite Hexec. reflexivity.
  - exact Hticks.
Qed.

(** Three ticks of the main block: three blocks, the first one made of the
    reports of EARTH and MARS after the first call. *)
Lemma run_reports_main :
  let self := Simulation.__init__ main_system 500 500 3 in
  let system := Simulation.solar_system self in
  outcome (Simulation.run self) main_world = Ok tt
  /\ exists blocks : list (list string),
       Datatypes.length blocks = Z.to_nat (Simulation.iterations self)
       /\ stdout (exec (Simulation.run self) main_world)
          = stdout main_world ++ List.concat blocks
       /\ Forall2 (report_format system
                     (Nat.iter 1 (exec (SolarSystem.move_planets system)) main_world))
            (SolarSystem.planets system) (nth 0 blocks []).
Proof.
  intros self system.
  assert (Hok : outcome (Simulation.run self) main_world = Ok tt)
    by (vm_compute; reflexivity).
  split; [exact Hok|].
  destruct (@run_reports _ self main_world Hok) as (blocks & Hlen & Hout & _ & Hticks).
  exists blocks. split; [exact Hlen | split; [exact Hout|]].
  assert (Hlt : 0 < Z.to_nat (Simulation.iterations self))
    by (unfold self; simpl; lia).
  exact (proj2 (Hticks 0 Hlt)).
Defined.

(** The lines themselves. *)
Example run_output_main :
  stdout (exec (Simulation.run (Simulation.__init__ main_system 500 500 3)) main_world)
  = ["EARTH: x=5.00, y=200.05, distance=200.11";
     "MARS: x=10.00, y=125.04, distance=125.44";
     "EARTH: x=5.00, y=200.10, distance=200.16";
     "MARS: x=10.00, y=125.08, distance=125.48";
     "EARTH: x=5.00, y=200.14, distance=200.20";
     "MARS: x=10.00, y=125.12, distance=125.52"]%string.
Proof. vm_compute. reflexivity. Qed.

(** C5.  Let two planets of the collection start with the same position and
    the same velocity, with any masses, in particular different ones.  After
    a run of any number of ticks that returns, they have the same position
    and the same velocity again: the acceleration [move_planets] computes,
    hence the whole trajectory, does not depend on the mass of the planet. *)
Theorem mass_independence `{L : Libm} :
  forall (self : Simulation.t) (w : World) (p q : ref),
    let system := Simulation.solar_system self in
    let w' := exec (Simulation.run self) w in
    count_occ Nat.eq_dec (SolarSystem.planets system) p = 1 ->
    count_occ Nat.eq_dec (SolarSystem.planets system) q = 1 ->
    PlanetObject._x_pos (planets w p) = PlanetObject._x_pos (planets w q) ->
    PlanetObject._y_pos (planets w p) = PlanetObject._y_pos (planets w q) ->
    PlanetObject._x_vel (planets w p) = PlanetObject._x_vel (planets w q) ->
    PlanetObject._y_vel (planets w p) = PlanetObject._y_vel (planets w q) ->
    outcome (Simulation.run self) w = Ok tt ->
    PlanetObject._x_pos (planets w' p) = PlanetObject._x_pos (planets w' q)
    /\ PlanetObject._y_pos (planets w' p) = PlanetObject._y_pos (planets w' q)
    /\ PlanetObject._x_vel (planets w' p) = PlanetObject._x_vel (planets w' q)
    /\ PlanetObject._y_vel (planets w' p) = PlanetObject._y_vel (planets w' q).
Proof.
  intros self w p q system w' Hp Hq Hx Hy Hvx Hvy Hok. subst system w'.
  assert (Hkin : kinematics (planets w p) = kinematics (planets w q)).
  { unfold kinematics. now rewrite Hx, Hy, Hvx, Hvy. }
  assert (Hkin' : kinematics (planets (exec (Simulation.run self) w) p)
                  = kinematics (planets (exec (Simulation.run self) w) q)).
  { unfold Simulation.run, for_range in Hok |- *.
    destruct (ticks_blocks self _ w Hok) as (blocks & _ & Hexec & Hticks).
    unfold one_tick in Hexec. rewrite Hexec. cbn [planets with_stdout].
    assert (H : forall k : nat, k <= Z.to_nat (Simulation.iterations self) ->
              kinematics (planets (Nat.iter k (tick self) w) p)
              = kinematics (planets (Nat.iter k (tick self) w) q)).
    { induction k as [|k IH]; intros Hk; [exact Hkin|].
      destruct (Hticks k ltac:(lia)) as [Hmove _].
      simpl Nat.iter. unfold tick at 1 3, SolarSystem.move_planets.
      destruct (loop_once _ _ p _ Hmove Hp) as [-> _].
      destruct (loop_once _ _ q _ Hmove Hq) as [-> _].
      apply advance_kinematics. apply IH. lia. }
    apply H. lia. }
  unfold kinematics in Hkin'. injection Hkin' as H1 H2 H3 H4. now repeat split.
Qed.

(** Three ticks: EARTH of mass 1 and its twin of mass 1000 stay together. *)
Lemma mass_independence_twin :
  let self := Simulation.__init__ twin_system 500 500 3 in
  let w' := exec (Simulation.run self) twin_world in
  PlanetObject._mass (planets twin_world 1) = literal 1
  /\ PlanetObject._mass (planets twin_world 3) = literal 1000
  /\ outcome (Simulation.run self) twin_world = Ok tt
  /\ PlanetObject._x_pos (planets w' 1) = PlanetObject._x_pos (planets w' 3)
  /\ PlanetObject._y_pos (planets w' 1) = PlanetObject._y_pos (planets w' 3)
  /\ PlanetObject._x_vel (planets w' 1) = PlanetObject._x_vel (planets w' 3)
  /\ PlanetObject._y_vel (planets w' 1) = PlanetObject._y_vel (planets w' 3).
Proof.
  intros self w'.
  assert (Hok : outcome (Simulation.run self) twin_world = Ok tt)
    by (vm_compute; reflexivity).
  split; [reflexivity | split; [reflexivity | split; [exact Hok|]]].
  exact (@mass_independence _ self twin_world 1 3 eq_refl eq_refl
           eq_refl eq_refl eq_refl eq_refl Hok).
Defined.

(** * The rest of the classes *)

(** ** Setters and getters *)

(** X1.  [set_position] overwrites the position of the sun and nothing else:
    the getters read the new coordinates back, the mass, name, radius and
    temperature of the sun are kept, every other sun, every planet and the
    output are untouched; of two successive calls only the last one counts.
    No coordinate is refused. *)
Theorem sun_set_position :
  forall (self : ref) (x y x' y' : float64) (w : World),
    let w1 := exec (Sun.set_position self x y) w in
    outcome (Sun.set_position self x y) w = Ok tt
    /\ outcome (Sun.get_x_pos self) w1 = Ok x
    /\ outcome (Sun.get_y_pos self) w1 = Ok y
    /\ outcome (Sun.get_mass self) w1 = outcome (Sun.get_mass self) w
    /\ SunObject.name (suns w1 self) = SunObject.name (suns w self)
    /\ SunObject._radius (suns w1 self) = SunObject._radius (suns w self)
    /\ SunObject._temperature (suns w1 self) = SunObject._temperature (suns w self)
    /\ (forall r : ref, r <> self -> suns w1 r = suns w r)
    /\ planets w1 = planets w
    /\ stdout w1 = stdout w
    /\ exec (Sun.set_position self x' y') w1 = exec (Sun.set_position self x' y') w.
Proof.
  intros self x y x' y' w w1. unfold w1, exec, outcome, Sun.set_position,
    Sun.get_x_pos, Sun.get_y_pos, Sun.get_mass.
  cbn [fst snd set_sun suns planets stdout].
  rewrite !update_same. cbn.
  repeat split.
  - intros r Hne. now apply update_other.
  - fold (set_sun self
            {| SunObject.name := SunObject.name (suns w self);
               SunObject._mass := SunObject._mass (suns w self);
               SunObject._radius := SunObject._radius (suns w self);
               SunObject._temperature := SunObject._temperature (suns w self);
               SunObject._x_pos := x; SunObject._y_pos := y |} w).
    unfold set_sun. cbn. now rewrite update_twice.
Qed.

(** X2.  [move_to], [set_x_vel] and [set_y_vel] each overwrite their own
    attributes of the planet: after the three calls the getters read the
    four values back, whatever the order of the calls; the name, mass,
    radius and color of the planet, the other planets, the suns and the
    output are untouched. *)
Theorem planet_setters :
  forall (self : ref) (x y vx vy : float64) (w : World),
    let w1 := exec (Planet.move_to self x y ;;
                    Planet.set_x_vel self vx ;;
                    Planet.set_y_vel self vy) w in
    outcome (Planet.get_x_pos self) w1 = Ok x
    /\ outcome (Planet.get_y_pos self) w1 = Ok y
    /\ outcome (Planet.get_x_vel self) w1 = Ok vx
    /\ outcome (Planet.get_y_vel self) w1 = Ok vy
    /\ outcome (Planet.get_mass self) w1 = outcome (Planet.get_mass self) w
    /\ description (planets w1 self) = description (planets w self)
    /\ (forall r : ref, r <> self -> planets w1 r = planets w r)
    /\ suns w1 = suns w
    /\ stdout w1 = stdout w
    /\ w1 = exec (Planet.set_y_vel self vy ;;
                  Planet.set_x_vel self vx ;;
                  Planet.move_to self x y) w.
Proof.
  intros self x y vx vy w w1.
  assert (Hw1 : w1 = set_planet self
                       (PlanetObject.Build_t
                          (PlanetObject.name (planets w self))
                          (PlanetObject._mass (planets w self))
                          (PlanetObject._radius (planets w self))
                          (PlanetObject._color (planets w self)) x y vx vy) w).
  { unfold w1, exec, bind, Planet.move_to, Planet.set_x_vel, Planet.set_y_vel.
    cbn [fst]. rewrite !planets_set_planet_same, !set_planet_twice. reflexivity. }
  assert (Hw2 : exec (Planet.set_y_vel self vy ;;
                      Planet.set_x_vel self vx ;;
                      Planet.move_to self x y) w
                = set_planet self
                    (PlanetObject.Build_t
                       (PlanetObject.name (planets w self))
                       (PlanetObject._mass (planets w self))
                       (PlanetObject._radius (planets w self))
                       (PlanetObject._color (planets w self)) x y vx vy) w).
  { unfold exec, bind, Planet.move_to, Planet.set_x_vel, Planet.set_y_vel.
    cbn [fst]. rewrite !planets_set_planet_same, !set_planet_twice. reflexivity. }
  rewrite Hw2, Hw1.
  unfold outcome, Planet.get_x_pos, Planet.get_y_pos, Planet.get_x_vel,
    Planet.get_y_vel, Planet.get_mass, description.
  cbn [snd]. rewrite !planets_set_planet_same. cbn.
  repeat split. intros r Hne. now apply update_other.
Qed.

(** ** The distance from the sun *)

Section Distance.

Context `{L : Libm}.

(** Rounding gives the sign it is asked for. *)
Lemma binary_round_aux_opp (s : bool) (m e : Z) (l : location) :
  binary_round_aux prec emax (negb s) m e l
  = SFopp (binary_round_aux prec emax s m e l).
Proof.
  unfold binary_round_aux.
  destruct (shr_fexp prec emax m e l) as [mrs' e'].
  destruct (shr_fexp prec emax _ e' loc_Exact) as [mrs'' e''].
  destruct (shr_m mrs''); try reflexivity.
  now destruct (Z.leb e'' (Z.sub emax prec)).
Qed.

Lemma binary_normalize_opp (m e : Z) :
  binary_normalize prec emax (Z.opp m) e false
  = match m with
    | Z0 => S754_zero false
    | _ => SFopp (binary_normalize prec emax m e false)
    end.
Proof.
  destruct m as [|p|p]; [reflexivity | |]; simpl Z.opp;
    unfold binary_normalize, binary_round;
    destruct (shl_align p e _) as [mz ez].
  - apply (binary_round_aux_opp false).
  - apply (binary_round_aux_opp true).
Qed.

(** An even power forgets the sign of its base. *)
Lemma float_pow_2_opp (x : float64) :
  float_pow (SFopp x) 2 = float_pow x 2.
Proof. now destruct x as [s | s | | [] m e]. Qed.

(** The square of a difference does not depend on the order of its terms. *)
Lemma float_pow_2_sub_swap (a b : float64) :
  float_pow (a - b)%py 2 = float_pow (b - a)%py 2.
Proof.
  destruct a as [sa | sa | | sa ma ea], b as [sb | sb | | sb mb eb];
    try reflexivity;
    try (destruct sa, sb; reflexivity);
    try (destruct sa; reflexivity);
    try (destruct sb; reflexivity).
  unfold sub, SFsub.
  rewrite (Z.min_comm eb ea).
  set (x := cond_Zopp sa (Z.pos (fst (shl_align ma ea (Z.min ea eb))))).
  set (y := cond_Zopp sb (Z.pos (fst (shl_align mb eb (Z.min ea eb))))).
  replace (Z.sub y x) with (Z.opp (Z.sub x y)) by lia.
  rewrite binary_normalize_opp.
  destruct (Z.sub x y) eqn:Hxy; [reflexivity | |]; now rewrite float_pow_2_opp.
Qed.

(** The root of a float is not below zero. *)
Lemma math_sqrt_not_negative (x r : float64) :
  math_sqrt x = Ok r -> SFltb r (S754_zero false) = false.
Proof.
  unfold math_sqrt.
  destruct x as [s | [] | | [] m e]; simpl; try discriminate;
    try (intros H; injection H as <-; reflexivity).
  destruct (SFsqrt_core_binary prec emax (Z.pos m) e) as [[mz ez] lz].
  unfold binary_round_aux.
  destruct (shr_fexp prec emax mz ez lz) as [mrs' e'].
  destruct (shr_fexp prec emax _ e' loc_Exact) as [mrs'' e''].
  destruct (shr_m mrs'') as [|p|p];
    [| destruct (Z.leb e'' (Z.sub emax prec)) |];
    simpl; intros H; try discriminate; injection H as <-; reflexivity.
Qed.

End Distance.

(** X3.  [distance_from_sun] reads and changes nothing.  Given a sun it
    computes sqrt(dx^2 + dy^2), and the same float whether the differences
    are taken planet minus sun, as it does, or sun minus planet, as
    [move_planets] does for its [new_distance]; given [None] it raises
    [AttributeError]. *)
Theorem distance_from_sun_value `{L : Libm} :
  forall (planet sun : ref) (w : World),
    let p := planets w planet in
    let s := suns w sun in
    Planet.distance_from_sun planet (Some sun) w =
      (w, rbind (float_pow (SunObject._x_pos s - PlanetObject._x_pos p)%py 2)
            (fun dx2 =>
             rbind (float_pow (SunObject._y_pos s - PlanetObject._y_pos p)%py 2)
               (fun dy2 => math_sqrt (dx2 + dy2)%py)))
    /\ Planet.distance_from_sun planet None w = (w, Raise AttributeError).
Proof.
  intros planet sun w p s. rewrite !distance_from_sun_distance.
  split; [|reflexivity]. cbn [option_map distance]. fold p s.
  now rewrite (float_pow_2_sub_swap (PlanetObject._x_pos p)),
              (float_pow_2_sub_swap (PlanetObject._y_pos p)).
Qed.

(** X4.  A distance that [distance_from_sun] returns is never below zero
    (it may be an infinity or a NaN), whatever the platform's [pow]. *)
Theorem distance_from_sun_not_negative `{L : Libm} :
  forall (planet : ref) (sun : option ref) (w : World) (d : float64),
    outcome (Planet.distance_from_sun planet sun) w = Ok d ->
    SFltb d (S754_zero false) = false.
Proof.
  intros planet sun w d. unfold outcome.
  rewrite distance_from_sun_distance. cbn [snd]. unfold distance.
  destruct (option_map (suns w) sun) as [s|]; [|discriminate].
  intros H.
  apply rbind_ok in H; destruct H as (dx2 & _ & H).
  apply rbind_ok in H; destruct H as (dy2 & _ & H).
  exact (math_sqrt_not_negative _ H).
Qed.

(** EARTH is at distance 200.06... from the sun when the simulation starts. *)
Lemma distance_from_sun_not_negative_earth :
  exists d : float64,
    outcome (Planet.distance_from_sun 1 (Some 0)) main_world = Ok d
    /\ format_2f d = "200.06"%string
    /\ SFltb d (S754_zero false) = false.
Proof.
  let o := eval vm_compute in (outcome (Planet.distance_from_sun 1 (Some 0)) main_world) in
  match o with
  | Ok ?d =>
      assert (H : outcome (Planet.distance_from_sun 1 (Some 0)) main_world = Ok d)
        by (vm_compute; reflexivity);
      exists d; split; [exact H | split; [vm_compute; reflexivity|]];
      exact (@distance_from_sun_not_negative _ 1 (Some 0) main_world d H)
  end.
Defined.

(** X5.  A planet moved onto the sun, at a position made of numbers, is at
    distance 0.0 from it. *)
Theorem distance_from_sun_on_sun `{L : Libm} :
  forall (planet sun : ref) (w : World),
    let sx := SunObject._x_pos (suns w sun) in
    let sy := SunObject._y_pos (suns w sun) in
    is_finite sx = true ->
    is_finite sy = true ->
    outcome (Planet.move_to planet sx sy ;;
             Planet.distance_from_sun planet (Some sun)) w
    = Ok (S754_zero false).
Proof.
  intros planet sun w sx sy Hx Hy. unfold outcome, bind, Planet.move_to.
  rewrite distance_from_sun_distance. cbn [snd option_map distance].
  rewrite planets_set_planet_same, suns_set_planet. fold sx sy.
  cbn [PlanetObject._x_pos PlanetObject._y_pos Planet.with_pos].
  now rewrite !sub_diag by assumption.
Qed.

(** MARS moved onto the sun of the main block. *)
Lemma distance_from_sun_on_sun_mars :
  is_finite (SunObject._x_pos (suns main_world 0)) = true
  /\ is_finite (SunObject._y_pos (suns main_world 0)) = true
  /\ outcome (Planet.move_to 2 (SunObject._x_pos (suns main_world 0))
                (SunObject._y_pos (suns main_world 0)) ;;
              Planet.distance_from_sun 2 (Some 0)) main_world
     = Ok (S754_zero false).
Proof.
  split; [reflexivity | split; [reflexivity|]].
  exact (@distance_from_sun_on_sun _ 2 0 main_world eq_refl eq_refl).
Defined.

(** ** Building a solar system *)

(** X6.  Planets added one after the other are listed in the order of the
    calls, after those already there, and the sun is kept; a second
    [add_sun] replaces the first sun and keeps the planets; the sun may be
    added before or after the planets.  In particular a new solar system
    to which [ps] are added holds exactly [ps] and no sun. *)
Theorem solar_system_building :
  forall (self : SolarSystem.t) (sun1 sun2 : ref) (ps : list ref),
    SolarSystem.planets (fold_left SolarSystem.add_planet ps self)
    = SolarSystem.planets self ++ ps
    /\ SolarSystem.the_sun (fold_left SolarSystem.add_planet ps self)
       = SolarSystem.the_sun self
    /\ fold_left SolarSystem.add_planet ps SolarSystem.__init__
       = {| SolarSystem.the_sun := None; SolarSystem.planets := ps |}
    /\ SolarSystem.add_sun (SolarSystem.add_sun self sun1) sun2
       = SolarSystem.add_sun self sun2
    /\ SolarSystem.planets (SolarSystem.add_sun self sun1)
       = SolarSystem.planets self
    /\ fold_left SolarSystem.add_planet ps (SolarSystem.add_sun self sun1)
       = SolarSystem.add_sun (fold_left SolarSystem.add_planet ps self) sun1.
Proof.
  intros self sun1 sun2 ps.
  assert (Hfold : forall (qs : list ref) (s : SolarSystem.t),
            fold_left SolarSystem.add_planet qs s
            = {| SolarSystem.the_sun := SolarSystem.the_sun s;
                 SolarSystem.planets := SolarSystem.planets s ++ qs |}).
  { induction qs as [|q qs IH]; intros s.
    - simpl. rewrite app_nil_r. now destruct s.
    - simpl fold_left. rewrite IH. unfold SolarSystem.add_planet. simpl.
      now rewrite <- app_assoc. }
  rewrite !Hfold. simpl. repeat split.
Qed.

(** ** Parts of a collection *)

Section Parts.

Context `{L : Libm}.

(** A passage that raises has moved the planet and kept its velocity. *)
Lemma advance_raises (sun : option SunObject.t) (p : PlanetObject.t) (e : exn) :
  snd (advance sun p) = Raise e -> fst (advance sun p) = moved p.
Proof.
  unfold advance. destruct sun as [s|]; [|reflexivity].
  now destruct (acceleration s _ _).
Qed.

Lemma move_planets_alone (sun : option ref) (planet : ref) (w : World) :
  SolarSystem.move_planets
    {| SolarSystem.the_sun := sun; SolarSystem.planets := [planet] |} w
  = SolarSystem.move_planet
      {| SolarSystem.the_sun := sun; SolarSystem.planets := [planet] |} planet w.
Proof.
  unfold SolarSystem.move_planets. cbn [SolarSystem.planets].
  rewrite for_each_cons. unfold outcome, exec.
  now destruct (SolarSystem.move_planet _ planet w) as [w' [[]|e]].
Qed.

End Parts.

(** X7.  One call on a collection made of two parts is the call on the first
    part followed, when it returns, by the call on the second part from the
    store it left; when the first part raises, so does the whole, in the same
    store, and the second part is not touched. *)
Theorem move_planets_parts `{L : Libm} :
  forall (sun : option ref) (ps qs : list ref) (w : World),
    let first := {| SolarSystem.the_sun := sun; SolarSystem.planets := ps |} in
    let second := {| SolarSystem.the_sun := sun; SolarSystem.planets := qs |} in
    let whole := {| SolarSystem.the_sun := sun; SolarSystem.planets := ps ++ qs |} in
    SolarSystem.move_planets whole w =
      match outcome (SolarSystem.move_planets first) w with
      | Ok _ => SolarSystem.move_planets second
                  (exec (SolarSystem.move_planets first) w)
      | Raise e => (exec (SolarSystem.move_planets first) w, Raise e)
      end.
Proof.
  intros sun ps qs w first second whole. unfold SolarSystem.move_planets.
  cbn [SolarSystem.planets].
  change (SolarSystem.move_planet whole) with (SolarSystem.move_planet first).
  change (SolarSystem.move_planet second) with (SolarSystem.move_planet first).
  apply for_each_app.
Qed.

(** X8.  A planet listed twice is advanced twice by one call.  When the call
    on the collection [planet; planet] returns, the call on [planet] alone
    returns, and the planet ends one more step away from where that call
    puts it: at its position plus 0.001 times its velocity after the first
    step. *)
Theorem move_planets_listed_twice `{L : Libm} :
  forall (sun : option ref) (planet : ref) (w : World),
    let once := {| SolarSystem.the_sun := sun; SolarSystem.planets := [planet] |} in
    let twice := {| SolarSystem.the_sun := sun;
                    SolarSystem.planets := [planet; planet] |} in
    let w1 := exec (SolarSystem.move_planets once) w in
    let w2 := exec (SolarSystem.move_planets twice) w in
    outcome (SolarSystem.move_planets twice) w = Ok tt ->
    outcome (SolarSystem.move_planets once) w = Ok tt
    /\ w2 = exec (SolarSystem.move_planets once) w1
    /\ PlanetObject._x_pos (planets w2 planet) =
         (PlanetObject._x_pos (planets w1 planet)
          + literal 0.001 * PlanetObject._x_vel (planets w1 planet))%py
    /\ PlanetObject._y_pos (planets w2 planet) =
         (PlanetObject._y_pos (planets w1 planet)
          + literal 0.001 * PlanetObject._y_vel (planets w1 planet))%py.
Proof.
  intros sun planet w once twice w1 w2 Hok.
  assert (Hparts : SolarSystem.move_planets twice w =
            match outcome (SolarSystem.move_planets once) w with
            | Ok _ => SolarSystem.move_planets once w1
            | Raise e => (w1, Raise e)
            end).
  { unfold SolarSystem.move_planets. cbn [SolarSystem.planets].
    change (SolarSystem.move_planet twice) with (SolarSystem.move_planet once).
    exact (for_each_app (SolarSystem.move_planet once) [planet] [planet] w). }
  assert (Halone : SolarSystem.move_planets once w1
                   = SolarSystem.move_planet once planet w1)
    by apply move_planets_alone.
  unfold outcome in Hok. rewrite Hparts in Hok.
  destruct (outcome (SolarSystem.move_planets once) w) as [[]|e] eqn:Hfirst;
    [|discriminate].
  assert (Hw2 : w2 = exec (SolarSystem.move_planets once) w1).
  { unfold w2, exec. now rewrite Hparts. }
  split; [reflexivity | split; [exact Hw2|]].
  rewrite Hw2. unfold exec. rewrite Halone in Hok |- *.
  fold (exec (SolarSystem.move_planet once planet) w1).
  fold (outcome (SolarSystem.move_planet once planet) w1) in Hok.
  rewrite exec_move_planet, planets_set_planet_same.
  rewrite outcome_move_planet in Hok.
  apply advance_ok in Hok. destruct Hok as (s & acc & _ & _ & ->).
  rewrite <- dt_literal. now split.
Qed.

(** EARTH listed twice in the main block's solar system: after one call it
    is two steps away, at y = 200.0475 + 0.001 * (its velocity after the
    first step). *)
Lemma move_planets_listed_twice_earth :
  let twice := {| SolarSystem.the_sun := Some 0; SolarSystem.planets := [1; 1] |} in
  outcome (SolarSystem.move_planets twice) main_world = Ok tt
  /\ format_2f (PlanetObject._y_pos
                  (planets (exec (SolarSystem.move_planets twice) main_world) 1))
     = "200.10"%string
  /\ exec (SolarSystem.move_planets twice) main_world
     = exec (SolarSystem.move_planets
               {| SolarSystem.the_sun := Some 0; SolarSystem.planets := [1] |})
         (exec (SolarSystem.move_planets
                  {| SolarSystem.the_sun := Some 0; SolarSystem.planets := [1] |})
            main_world).
Proof.
  intros twice.
  assert (Hok : outcome (SolarSystem.move_planets twice) main_world = Ok tt)
    by (vm_compute; reflexivity).
  split; [exact Hok | split; [vm_compute; reflexivity|]].
  exact (proj1 (proj2 (@move_planets_listed_twice _ (Some 0) 1 main_world Hok))).
Defined.

(** X9.  Where a call stops.  Let the planets listed before [planet] be
    advanced without error and let the call on [planet] alone raise [e].
    Then the call on the whole collection raises [e]; every other planet is
    as the call on the planets before left it, so the planets listed after
    are untouched; and the planet itself has moved to position + 0.001 *
    velocity with its velocity unchanged. *)
Theorem move_planets_raises_at `{L : Libm} :
  forall (sun : option ref) (before after : list ref) (planet : ref)
         (w : World) (e : exn),
    let first := {| SolarSystem.the_sun := sun; SolarSystem.planets := before |} in
    let alone := {| SolarSystem.the_sun := sun; SolarSystem.planets := [planet] |} in
    let whole := {| SolarSystem.the_sun := sun;
                    SolarSystem.planets := before ++ planet :: after |} in
    let w1 := exec (SolarSystem.move_planets first) w in
    let w' := exec (SolarSystem.move_planets whole) w in
    ~ In planet before ->
    outcome (SolarSystem.move_planets first) w = Ok tt ->
    outcome (SolarSystem.move_planets alone) w = Raise e ->
    outcome (SolarSystem.move_planets whole) w = Raise e
    /\ (forall r : ref, r <> planet -> planets w' r = planets w1 r)
    /\ (forall r : ref, r <> planet -> ~ In r before -> planets w' r = planets w r)
    /\ PlanetObject._x_pos (planets w' planet) =
         (PlanetObject._x_pos (planets w planet)
          + literal 0.001 * PlanetObject._x_vel (planets w planet))%py
    /\ PlanetObject._y_pos (planets w' planet) =
         (PlanetObject._y_pos (planets w planet)
          + literal 0.001 * PlanetObject._y_vel (planets w planet))%py
    /\ PlanetObject._x_vel (planets w' planet) = PlanetObject._x_vel (planets w planet)
    /\ PlanetObject._y_vel (planets w' planet) = PlanetObject._y_vel (planets w planet).
Proof.
  intros sun before after planet w e first alone whole w1 w' Hnotin Hfirst Halone.
  assert (Hadv : snd (advance (sun_of first w) (planets w planet)) = Raise e).
  { unfold outcome in Halone. unfold alone in Halone.
    rewrite move_planets_alone in Halone.
    fold (outcome (SolarSystem.move_planet
                     {| SolarSystem.the_sun := sun;
                        SolarSystem.planets := [planet] |} planet) w) in Halone.
    rewrite outcome_move_planet in Halone. exact Halone. }
  assert (Hwhole : SolarSystem.move_planets whole w
                   = (set_planet planet (moved (planets w planet)) w1, Raise e)).
  { unfold SolarSystem.move_planets, whole. cbn [SolarSystem.planets].
    change (SolarSystem.move_planet
              {| SolarSystem.the_sun := sun;
                 SolarSystem.planets := before ++ planet :: after |})
      with (SolarSystem.move_planet first).
    rewrite for_each_app.
    change (for_each before (SolarSystem.move_planet first))
      with (SolarSystem.move_planets first).
    rewrite Hfirst. fold w1.
    rewrite for_each_cons, outcome_move_planet, exec_move_planet.
    assert (Hw1 : w1 = exec (for_each before (SolarSystem.move_planet first)) w)
      by reflexivity.
    assert (Hsun : sun_of first w1 = sun_of first w)
      by (rewrite Hw1; apply sun_of_loop).
    assert (Hp : planets w1 planet = planets w planet)
      by (rewrite Hw1; now apply loop_not_in).
    rewrite Hsun, Hp, Hadv, (advance_raises _ _ Hadv). reflexivity. }
  unfold w', outcome, exec. rewrite Hwhole. cbn [fst snd].
  rewrite planets_set_planet_same, <- dt_literal.
  split; [reflexivity | split; [|split; [|now repeat split]]].
  - intros r Hne. now apply planets_set_planet_other.
  - intros r Hne Hr. rewrite planets_set_planet_other by exact Hne.
    assert (Hw1 : w1 = exec (for_each before (SolarSystem.move_planet first)) w)
      by reflexivity.
    rewrite Hw1. now apply loop_not_in.
Qed.

(** On the store with ICARUS: EARTH and MARS are advanced, ICARUS raises
    [ZeroDivisionError] and stays where it was put, at rest. *)
Lemma move_planets_raises_at_icarus :
  let whole := {| SolarSystem.the_sun := Some 0;
                  SolarSystem.planets := [1; 2] ++ 3 :: [] |} in
  let w' := exec (SolarSystem.move_planets whole) icarus_world in
  ~ In 3 [1; 2]
  /\ outcome (SolarSystem.move_planets main_system) icarus_world = Ok tt
  /\ outcome (SolarSystem.move_planets
                {| SolarSystem.the_sun := Some 0; SolarSystem.planets := [3] |})
       icarus_world = Raise ZeroDivisionError
  /\ outcome (SolarSystem.move_planets whole) icarus_world = Raise ZeroDivisionError
  /\ planets w' 1 = planets (exec (SolarSystem.move_planets main_system) icarus_world) 1
  /\ PlanetObject._y_vel (planets w' 3) = PlanetObject._y_vel (planets icarus_world 3).
Proof.
  intros whole w'.
  assert (Hnotin : ~ In 3 [1; 2]) by (simpl; intuition discriminate).
  assert (Hfirst : outcome (SolarSystem.move_planets main_system) icarus_world = Ok tt)
    by (vm_compute; reflexivity).
  assert (Halone : outcome (SolarSystem.move_planets
                              {| SolarSystem.the_sun := Some 0;
                                 SolarSystem.planets := [3] |})
                     icarus_world = Raise ZeroDivisionError)
    by (vm_compute; reflexivity).
  destruct (@move_planets_raises_at _ (Some 0) [1; 2] [] 3 icarus_world
              ZeroDivisionError Hnotin Hfirst Halone)
    as (Hraise & Hothers & _ & _ & _ & _ & Hvy).
  split; [exact Hnotin | split; [exact Hfirst | split; [exact Halone|]]].
  split; [exact Hraise | split; [|exact Hvy]].
  apply Hothers. discriminate.
Defined.

(** ** The run: bounds, parts and failure *)

Section RunParts.

Context `{L : Libm}.

Lemma for_each_repeat_app (body : Py unit) (n m : nat) (w : World) :
  for_each (repeat tt (n + m)) (fun _ => body) w =
    match outcome (for_each (repeat tt n) (fun _ => body)) w with
    | Ok _ => for_each (repeat tt m) (fun _ => body)
                (exec (for_each (repeat tt n) (fun _ => body)) w)
    | Raise e => (exec (for_each (repeat tt n) (fun _ => body)) w, Raise e)
    end.
Proof. rewrite repeat_app. apply for_each_app. Qed.

(** Ticks on an empty collection do nothing. *)
Lemma ticks_nothing (body : Py unit) (n : nat) (w : World) :
  body w = (w, Ok tt) ->
  for_each (repeat tt n) (fun _ => body) w = (w, Ok tt).
Proof.
  intros Hbody. induction n as [|n IH]; [reflexivity|].
  simpl repeat. rewrite for_each_cons. unfold outcome, exec.
  now rewrite Hbody.
Qed.

End RunParts.

(** X10.  A run whose iteration count is zero or negative does nothing: it
    returns at once, with no call of [move_planets], no output and the store
    as it was, even when the solar system has no sun. *)
Theorem run_no_iteration `{L : Libm} :
  forall (self : Simulation.t) (w : World),
    (Simulation.iterations self <= 0)%Z ->
    Simulation.run self w = (w, Ok tt).
Proof.
  intros self w Hle. unfold Simulation.run, for_range.
  replace (Z.to_nat (Simulation.iterations self)) with 0 by lia.
  reflexivity.
Qed.

Lemma run_no_iteration_main :
  let self := Simulation.__init__ SolarSystem.__init__ 500 500 (-3) in
  (Simulation.iterations self <= 0)%Z
  /\ Simulation.run self main_world = (main_world, Ok tt).
Proof.
  intros self.
  assert (Hle : (Simulation.iterations self <= 0)%Z) by (unfold self; simpl; lia).
  split; [exact Hle|].
  exact (@run_no_iteration _ self main_world Hle).
Defined.

(** X11.  A run on a solar system without planets does nothing, whatever the
    iteration count: it returns, prints nothing and leaves the store as it
    was, even when no sun has been set. *)
Theorem run_no_planet `{L : Libm} :
  forall (self : Simulation.t) (w : World),
    SolarSystem.planets (Simulation.solar_system self) = [] ->
    Simulation.run self w = (w, Ok tt).
Proof.
  intros self w Hps. unfold Simulation.run, for_range.
  apply ticks_nothing.
  unfold SolarSystem.move_planets. rewrite Hps. reflexivity.
Qed.

Lemma run_no_planet_main :
  let self := Simulation.__init__ SolarSystem.__init__ 500 500 2000 in
  SolarSystem.planets (Simulation.solar_system self) = []
  /\ SolarSystem.the_sun (Simulation.solar_system self) = None
  /\ Simulation.run self main_world = (main_world, Ok tt).
Proof.
  intros self. split; [reflexivity | split; [reflexivity|]].
  exact (@run_no_planet _ self main_world eq_refl).
Defined.

(** X12.  A run of n + m iterations is a run of n iterations followed, when
    it returns, by a run of m iterations from the store it left; when the
    first n iterations raise, the run stops there with the same error. *)
Theorem run_parts `{L : Libm} :
  forall (solar_system : SolarSystem.t) (width height n m : Z) (w : World),
    (0 <= n)%Z ->
    (0 <= m)%Z ->
    let first := Simulation.__init__ solar_system width height n in
    let second := Simulation.__init__ solar_system width height m in
    let whole := Simulation.__init__ solar_system width height (n + m) in
    Simulation.run whole w =
      match outcome (Simulation.run first) w with
      | Ok _ => Simulation.run second (exec (Simulation.run first) w)
      | Raise e => (exec (Simulation.run first) w, Raise e)
      end.
Proof.
  intros solar_system width height n m w Hn Hm first second whole.
  unfold Simulation.run, for_range, whole, first, second.
  cbn [Simulation.iterations Simulation.solar_system Simulation.__init__].
  rewrite Z2Nat.inj_add by assumption.
  exact (for_each_repeat_app _ (Z.to_nat n) (Z.to_nat m) w).
Qed.

(** Three iterations of the main block are two iterations and one more. *)
Lemma run_parts_main :
  (0 <= 2)%Z /\ (0 <= 1)%Z
  /\ outcome (Simulation.run (Simulation.__init__ main_system 500 500 2)) main_world
     = Ok tt
  /\ Simulation.run (Simulation.__init__ main_system 500 500 (2 + 1)) main_world
     = Simulation.run (Simulation.__init__ main_system 500 500 1)
         (exec (Simulation.run (Simulation.__init__ main_system 500 500 2)) main_world).
Proof.
  assert (H2 : (0 <= 2)%Z) by lia.
  assert (H1 : (0 <= 1)%Z) by lia.
  assert (Hok : outcome (Simulation.run (Simulation.__init__ main_system 500 500 2))
                  main_world = Ok tt) by (vm_compute; reflexivity).
  split; [exact H2 | split; [exact H1 | split; [exact Hok|]]].
  pose proof (@run_parts _ main_system 500 500 2 1 main_world H2 H1) as H.
  cbv zeta in H. rewrite Hok in H. exact H.
Defined.

(** X13.  A run stops at the first call of [move_planets] that raises: when
    the first call raises [e] and at least one iteration is asked for, the
    run raises [e], in the store that call left and without any output. *)
Theorem run_stops `{L : Libm} :
  forall (self : Simulation.t) (w : World) (e : exn),
    (0 < Simulation.iterations self)%Z ->
    outcome (SolarSystem.move_planets (Simulation.solar_system self)) w = Raise e ->
    Simulation.run self w
    = (exec (SolarSystem.move_planets (Simulation.solar_system self)) w, Raise e)
    /\ stdout (exec (Simulation.run self) w) = stdout w.
Proof.
  intros self w e Hpos Hraise.
  assert (Hrun : Simulation.run self w
                 = (exec (SolarSystem.move_planets (Simulation.solar_system self)) w,
                    Raise e)).
  { unfold Simulation.run, for_range.
    destruct (Z.to_nat (Simulation.iterations self)) as [|n] eqn:Hn; [lia|].
    simpl repeat. rewrite for_each_cons.
    unfold outcome, exec, bind in Hraise |- *.
    destruct (SolarSystem.move_planets (Simulation.solar_system self) w)
      as [w' [[]|e']]; [discriminate|].
    simpl in Hraise |- *. now injection Hraise as ->. }
  split; [exact Hrun|].
  unfold exec at 1. rewrite Hrun. cbn [fst].
  unfold SolarSystem.move_planets. apply loop_frame.
Qed.

(** With ICARUS on the sun the run of the main block's length stops in its
    first iteration and prints nothing. *)
Lemma run_stops_icarus :
  let self := Simulation.__init__ icarus_system 500 500 2000 in
  (0 < Simulation.iterations self)%Z
  /\ outcome (SolarSystem.move_planets (Simulation.solar_system self)) icarus_world
     = Raise ZeroDivisionError
  /\ outcome (Simulation.run self) icarus_world = Raise ZeroDivisionError
  /\ stdout (exec (Simulation.run self) icarus_world) = [].
Proof.
  intros self.
  assert (Hpos : (0 < Simulation.iterations self)%Z) by (unfold self; simpl; lia).
  assert (Hraise : outcome (SolarSystem.move_planets (Simulation.solar_system self))
                     icarus_world = Raise ZeroDivisionError)
    by (vm_compute; reflexivity).
  destruct (@run_stops _ self icarus_world ZeroDivisionError Hpos Hraise)
    as [Hrun Hout].
  split; [exact Hpos | split; [exact Hraise | split]].
  - unfold outcome. now rewrite Hrun.
  - rewrite Hout. reflexivity.
Defined.

(** X14.  What a run leaves alone, whether it returns or raises: the sun
    objects, the name, mass, radius and color of every planet, the objects
    still to be made and the state of the [random] module are as before;
    the output is only added to, never rewritten. *)
Theorem run_frame_output `{L : Libm} :
  forall (self : Simulation.t) (w : World),
    let w' := exec (Simulation.run self) w in
    suns w' = suns w
    /\ (forall r : ref,
          PlanetObject.name (planets w' r) = PlanetObject.name (planets w r)
          /\ PlanetObject._mass (planets w' r) = PlanetObject._mass (planets w r)
          /\ PlanetObject._radius (planets w' r) = PlanetObject._radius (planets w r)
          /\ PlanetObject._color (planets w' r) = PlanetObject._color (planets w r))
    /\ next w' = next w
    /\ random w' = random w
    /\ exists printed : list string, stdout w' = stdout w ++ printed.
Proof.
  intros self w w'.
  set (P := fun v : World =>
              suns v = suns w
              /\ (forall r : ref, description (planets v r) = description (planets w r))
              /\ next v = next w /\ random v = random w
              /\ exists printed : list string, stdout v = stdout w ++ printed).
  assert (H : preserves P (Simulation.run self)).
  { unfold Simulation.run, for_range. apply preserves_for_each. intros _.
    apply preserves_bind.
    - apply preserves_for_each. intros planet v (Hs & Hd & Hn & Hr & Ho).
      rewrite exec_move_planet. unfold P. cbn [suns next random stdout set_planet planets].
      repeat split; try assumption.
      intros r. unfold update. destruct (Nat.eqb_spec r planet) as [-> | Hne].
      + rewrite description_advance. apply Hd.
      + apply Hd.
    - intros _. apply preserves_for_each. intros planet v HP.
      unfold exec. rewrite report_line.
      destruct (distance _ _) as [d|e]; [|exact HP].
      destruct HP as (Hs & Hd & Hn & Hr & printed & Ho).
      unfold P, print. cbn [fst suns next random stdout planets].
      repeat split; try assumption.
      exists (printed ++ [line (planets v planet) d]).
      now rewrite Ho, app_assoc. }
  assert (HP : P w).
  { unfold P. repeat split. exists []. now rewrite app_nil_r. }
  destruct (H w HP) as (Hs & Hd & Hn & Hr & Ho).
  split; [exact Hs | split; [|now repeat split]].
  intros r. specialize (Hd r). unfold description in Hd.
  injection Hd as H1 H2 H3 H4. now repeat split.
Qed.

(** X15 on the main block: no planet is listed twice, the call returns, so
    for EARTH and for MARS the cube of the distance is computed and is not
    zero. *)
Lemma move_planets_returns_main :
  SolarSystem.the_sun main_system = Some 0
  /\ NoDup (SolarSystem.planets main_system)
  /\ outcome (SolarSystem.move_planets main_system) main_world = Ok tt
  /\ forall planet : ref,
       In planet (SolarSystem.planets main_system) ->
       let p := planets main_world planet in
       let x := (PlanetObject._x_pos p + literal 0.001 * PlanetObject._x_vel p)%py in
       let y := (PlanetObject._y_pos p + literal 0.001 * PlanetObject._y_vel p)%py in
       exists dx2 dy2 r r3,
         float_pow (SunObject._x_pos (suns main_world 0) - x)%py 2 = Ok dx2
         /\ float_pow (SunObject._y_pos (suns main_world 0) - y)%py 2 = Ok dy2
         /\ math_sqrt (dx2 + dy2)%py = Ok r
         /\ float_pow r 3 = Ok r3
         /\ is_zero r3 = false.
Proof.
  assert (Hsun : SolarSystem.the_sun main_system = Some 0) by reflexivity.
  assert (Hnodup : NoDup (SolarSystem.planets main_system)).
  { repeat constructor; simpl; intuition discriminate. }
  assert (Hok : outcome (SolarSystem.move_planets main_system) main_world = Ok tt)
    by (vm_compute; reflexivity).
  split; [exact Hsun | split; [exact Hnodup | split; [exact Hok|]]].
  exact (proj1 (@move_planets_returns _ main_system main_world 0 Hsun Hnodup) Hok).
Defined.

Lemma length_concat_blocks (A : Type) (blocks : list (list A)) (c : nat) :
  (forall k : nat, k < Datatypes.length blocks ->
     Datatypes.length (nth k blocks []) = c) ->
  Datatypes.length (List.concat blocks) = Datatypes.length blocks * c.
Proof.
  induction blocks as [|b blocks IH]; intros H; [reflexivity|].
  assert (Hb : Datatypes.length b = c) by (apply (H 0); simpl; lia).
  simpl. rewrite length_app, IH, Hb; [reflexivity|].
  intros k Hk. apply (H (S k)). simpl. lia.
Qed.

(** X16.  A run that returns prints exactly one line for each planet of the
    collection at each iteration: the output grows by the iteration count
    (zero when it is negative) times the length of the collection, a planet
    listed twice counting twice. *)
Theorem run_line_count `{L : Libm} :
  forall (self : Simulation.t) (w : World),
    outcome (Simulation.run self) w = Ok tt ->
    Datatypes.length (stdout (exec (Simulation.run self) w))
    = Datatypes.length (stdout w)
      + Z.to_nat (Simulation.iterations self)
        * Datatypes.length (SolarSystem.planets (Simulation.solar_system self)).
Proof.
  intros self w Hok. unfold Simulation.run, for_range in Hok |- *.
  destruct (ticks_blocks self _ w Hok) as (blocks & Hlen & Hexec & Hticks).
  unfold one_tick in Hexec. rewrite Hexec. cbn [stdout with_stdout].
  rewrite length_app. f_equal. rewrite <- Hlen.
  apply length_concat_blocks. intros k Hk. rewrite Hlen in Hk.
  destruct (Hticks k Hk) as [_ Hformat].
  symmetry. exact (Forall2_length Hformat).
Qed.

(** The main block prints 2000 * 2 lines; three iterations print six. *)
Lemma run_line_count_main :
  let self := Simulation.__init__ main_system 500 500 3 in
  outcome (Simulation.run self) main_world = Ok tt
  /\ Datatypes.length (stdout (exec (Simulation.run self) main_world)) = 6.
Proof.
  intros self.
  assert (Hok : outcome (Simulation.run self) main_world = Ok tt)
    by (vm_compute; reflexivity).
  split; [exact Hok|].
  rewrite (@run_line_count _ self main_world Hok). reflexivity.
Defined.
